(** * steam-hosts-tools: the hosts updater and the hosts verifier

    A shallow embedding of [update_steam_hosts.py] and
    [verify_steam_hosts.py], followed by the properties of the line
    filter, of the resolution chain and of the two command-line drivers.

    Python text is a sequence of Unicode code points, so a [str] is a list
    of code points ([N]); a file holds bytes.  The external collaborators
    (process table, [PATH] lookup, clock, codec, file system) appear as an
    environment of oracles and as an explicit world state with a trace of
    the effects performed. *)

From Stdlib Require Import NArith Strings.String Strings.Ascii Strings.Byte.
From stdpp Require Import base decidable option numbers list sorting gmap.

Open Scope N_scope.

(** ** Python strings *)

Module Py.

Definition char := N.
Definition str := list N.

(** A literal of the source, as code points. *)
Fixpoint lit (s : string) : str :=
  match s with
  | EmptyString => []
  | String a s' => N_of_ascii a :: lit s'
  end.
Arguments lit : simpl never.

Definition TAB : char := 9.
Definition LF : char := 10.
Definition CR : char := 13.
Definition SPACE : char := 32.
Definition COMMA : char := 44.
Definition DOT : char := 46.
Definition COLON : char := 58.

(** [str.isspace] on one code point: the table of CPython's
    [_PyUnicode_IsWhitespace]. *)
Definition is_space (c : char) : bool :=
  ((9 <=? c) && (c <=? 13)) || ((28 <=? c) && (c <=? 32))
  || (c =? 133) || (c =? 160) || (c =? 5760)
  || ((8192 <=? c) && (c <=? 8202))
  || (c =? 8232) || (c =? 8233) || (c =? 8239) || (c =? 8287)
  || (c =? 12288).

(** The line boundaries of [str.splitlines], apart from the pair CR LF. *)
Definition is_linebreak (c : char) : bool :=
  ((10 <=? c) && (c <=? 13)) || ((28 <=? c) && (c <=? 30))
  || (c =? 133) || (c =? 8232) || (c =? 8233).

Fixpoint lstrip (s : str) : str :=
  match s with
  | [] => []
  | c :: s' => if is_space c then lstrip s' else s
  end.

Fixpoint rstrip (s : str) : str :=
  match s with
  | [] => []
  | c :: s' =>
      match rstrip s' with
      | [] => if is_space c then [] else [c]
      | r => c :: r
      end
  end.

(** [s.strip()] *)
Definition strip (s : str) : str := rstrip (lstrip s).

(** [s.startswith(p)] *)
Fixpoint startswith (s p : str) {struct p} : bool :=
  match p, s with
  | [], _ => true
  | _ :: _, [] => false
  | a :: p', c :: s' => (a =? c) && startswith s' p'
  end.

(** [sub in s] for two strings. *)
Fixpoint str_in (sub s : str) : bool :=
  startswith s sub ||
  match s with
  | [] => false
  | _ :: s' => str_in sub s'
  end.

(** [c in s] for a one-character literal [c]. *)
Definition char_in (c : char) (s : str) : bool := str_in [c] s.

(** [s.splitlines()]: [cur] is the current line, reversed. *)
Fixpoint splitlines_from (cur : str) (s : str) : list str :=
  match s with
  | [] => match cur with [] => [] | _ => [rev cur] end
  | c :: s' =>
      if is_linebreak c then
        rev cur ::
        (if c =? CR then
           match s' with
           | c' :: s'' =>
               if c' =? LF then splitlines_from [] s''
               else splitlines_from [] s'
           | [] => splitlines_from [] s'
           end
         else splitlines_from [] s')
      else splitlines_from (c :: cur) s'
  end.

Definition splitlines (s : str) : list str := splitlines_from [] s.

(** [s.split()]: maximal runs of non-space characters. *)
Fixpoint split_from (cur : str) (s : str) : list str :=
  match s with
  | [] => match cur with [] => [] | _ => [rev cur] end
  | c :: s' =>
      if is_space c then
        match cur with
        | [] => split_from [] s'
        | _ => rev cur :: split_from [] s'
        end
      else split_from (c :: cur) s'
  end.

Definition split (s : str) : list str := split_from [] s.

(** [s.split(sep)] for a one-character separator: every separator cuts,
    empty pieces are kept. *)
Fixpoint split_on_from (sep : char) (cur : str) (s : str) : list str :=
  match s with
  | [] => [rev cur]
  | c :: s' =>
      if c =? sep then rev cur :: split_on_from sep [] s'
      else split_on_from sep (c :: cur) s'
  end.

Definition split_on (sep : char) (s : str) : list str :=
  split_on_from sep [] s.

(** [s.split(sep, 1)]: cut at the first separator only. *)
Fixpoint split1_from (sep : char) (cur : str) (s : str) : list str :=
  match s with
  | [] => [rev cur]
  | c :: s' =>
      if c =? sep then [rev cur; s'] else split1_from sep (c :: cur) s'
  end.

Definition split1 (sep : char) (s : str) : list str :=
  split1_from sep [] s.

(** [sep.join(parts)] *)
Fixpoint join (sep : str) (parts : list str) : str :=
  match parts with
  | [] => []
  | [p] => p
  | p :: ps => p ++ sep ++ join sep ps
  end.

(** [s.lower()].  The source lowers a line only to test it against the
    ASCII literal ["address:"]; the letters A-Z are the only code points
    whose lower case is an ASCII letter of that literal, so the case
    mapping is given on A-Z and is the identity elsewhere. *)
Definition lower_char (c : char) : char :=
  if (65 <=? c) && (c <=? 90) then c + 32 else c.

Definition lower (s : str) : str := map lower_char s.

(** [str(n)] for a non-negative integer. *)
Fixpoint uint_digits (u : Decimal.uint) : str :=
  match u with
  | Decimal.Nil => []
  | Decimal.D0 u' => 48 :: uint_digits u'
  | Decimal.D1 u' => 49 :: uint_digits u'
  | Decimal.D2 u' => 50 :: uint_digits u'
  | Decimal.D3 u' => 51 :: uint_digits u'
  | Decimal.D4 u' => 52 :: uint_digits u'
  | Decimal.D5 u' => 53 :: uint_digits u'
  | Decimal.D6 u' => 54 :: uint_digits u'
  | Decimal.D7 u' => 55 :: uint_digits u'
  | Decimal.D8 u' => 56 :: uint_digits u'
  | Decimal.D9 u' => 57 :: uint_digits u'
  end.

Definition str_of_nat (n : nat) : str := uint_digits (Nat.to_uint n).

(** Zero padding on the left to [w] characters, as [%02d] and [%04d]. *)
Definition zfill (w : nat) (s : str) : str :=
  replicate (w - length s)%nat 48 ++ s.

(** *** Ordering of strings: code point by code point, as [sorted] uses. *)

Fixpoint str_leb (s t : str) : bool :=
  match s, t with
  | [], _ => true
  | _ :: _, [] => false
  | a :: s', b :: t' => (a <? b) || ((a =? b) && str_leb s' t')
  end.

Definition str_le (s t : str) : Prop := str_leb s t = true.

#[global] Instance str_le_dec s t : Decision (str_le s t).
Proof. unfold str_le. apply _. Defined.

(** [sorted(set(xs))]: the distinct members of [xs] in ascending order.
    The set is a [gset]; its iteration order is not specified, and the
    sort makes the result independent of it. *)
Definition sorted_set (xs : list str) : list str :=
  merge_sort str_le (elements (list_to_set xs : gset str)).

End Py.

Import Py.

(** ** The world outside the two programs *)

Module Sys.

(** The exceptions a step can raise. *)
Inductive exn :=
| FileNotFoundError
| CalledProcessError
| TimeoutExpired
| UnicodeDecodeError
| OSError
| IndexError.

Inductive outcome (A : Type) :=
| Ret (a : A)
| Raise (e : exn).
Arguments Ret {A} a.
Arguments Raise {A} e.

(** The effects a run performs, in the order it performs them. *)
Inductive event :=
| EvWhich (cmd : str)                  (* shutil.which *)
| EvExec (argv : list str)             (* subprocess.check_output *)
| EvMkdir (p : str)
| EvCopy (src dst : str)               (* shutil.copy2 *)
| EvRead (p : str)
| EvWrite (p : str) (data : list byte)
| EvOut (line : str)                   (* print *)
| EvErr (line : str).                  (* print(..., file=sys.stderr) *)

Definition is_tool (e : event) : bool :=
  match e with
  | EvWhich _ | EvExec _ => true
  | _ => false
  end.

(** The probes and invocations of external tools made so far. *)
Definition tool_history (tr : list event) : list event := filter is_tool tr.

Record datetime := {
  year : nat; month : nat; day : nat;
  hour : nat; minute : nat; second : nat
}.

(** One entry of [socket.getaddrinfo]: the host part of its socket
    address, [info[4][0]], is all the verifier reads. *)
Record addrinfo := { ai_family : N; ai_host : str; ai_port : N }.

(** The collaborators the programs do not implement.  A tool's answer may
    depend on the probes and invocations that came before it: the same
    command asked twice may answer differently.  [check_output] folds a
    missing binary, a non-zero exit status, a timeout and undecodable
    output into the exception it raises.  The name service of the
    verifier is asked once per managed domain, so it is a function of the
    domain. *)
Record env := {
  which : list event -> str -> bool;
  check_output : list event -> list str -> outcome str;
  getaddrinfo : str -> outcome (list addrinfo);
  now : datetime;
  decode : list byte -> str;          (* bytes.decode("utf-8", "ignore") *)
  encode : str -> list byte           (* str.encode("utf-8") *)
}.

(** The file system holds regular files only, named by their path text;
    directories, links, permissions and device errors are not modelled,
    so an operation on an existing file succeeds. *)
Record world := {
  fs : gmap str (list byte);
  trace : list event
}.

Definition log (e : event) (w : world) : world :=
  {| fs := fs w; trace := trace w ++ [e] |}.

(** Computations: a world in, a result or an exception and a world out. *)
Definition M (A : Type) : Type := world -> outcome A * world.

Definition ret {A} (a : A) : M A := fun w => (Ret a, w).
Definition raise {A} (e : exn) : M A := fun w => (Raise e, w).
Definition bind {A B} (m : M A) (k : A -> M B) : M B :=
  fun w =>
    match m w with
    | (Ret a, w') => k a w'
    | (Raise e, w') => (Raise e, w')
    end.

(** [try: x = body / except Exception: handler / (then) ok x] *)
Definition try_except {A B} (body : M A) (handler : M B) (ok : A -> M B)
  : M B :=
  fun w =>
    match body w with
    | (Ret a, w') => ok a w'
    | (Raise _, w') => handler w'
    end.

(** A pure step that may raise. *)
Definition lift {A} (o : outcome A) : M A := fun w => (o, w).

Definition obind {A B} (o : outcome A) (k : A -> outcome B) : outcome B :=
  match o with
  | Ret a => k a
  | Raise e => Raise e
  end.

End Sys.

Import Sys.

#[global] Instance M_ret : MRet M := @ret.
#[global] Instance M_bind : MBind M := fun A B k m => bind m k.

(** ** Primitive steps *)

Module Prim.

Definition has_cmd (e : env) (cmd : str) : M bool :=
  fun w => (Ret (which e (tool_history (trace w)) cmd), log (EvWhich cmd) w).

Definition check_output (e : env) (argv : list str) : M str :=
  fun w =>
    (Sys.check_output e (tool_history (trace w)) argv, log (EvExec argv) w).

Definition print (line : str) : M unit :=
  fun w => (Ret tt, log (EvOut line) w).

Definition print_err (line : str) : M unit :=
  fun w => (Ret tt, log (EvErr line) w).

(** [Path.exists] *)
Definition exists_ (p : str) : M bool :=
  fun w => (Ret (bool_decide (is_Some (fs w !! p))), w).

(** [Path.mkdir(parents=True, exist_ok=True)] *)
Definition mkdir (p : str) : M unit :=
  fun w => (Ret tt, log (EvMkdir p) w).

(** [shutil.copy2].  The copy of a file onto itself, which [shutil]
    refuses, leaves the file as it is here. *)
Definition copy2 (src dst : str) : M unit :=
  fun w =>
    match fs w !! src with
    | Some data =>
        (Ret tt, {| fs := <[dst := data]> (fs w);
                    trace := trace w ++ [EvCopy src dst] |})
    | None => (Raise FileNotFoundError, w)
    end.

(** [Path.read_text(encoding="utf-8", errors="ignore")] *)
Definition read_text (e : env) (p : str) : M str :=
  fun w =>
    match fs w !! p with
    | Some data => (Ret (decode e data), log (EvRead p) w)
    | None => (Raise FileNotFoundError, w)
    end.

(** [Path.write_text(text, encoding="utf-8")] *)
Definition write_text (e : env) (p : str) (text : str) : M unit :=
  fun w =>
    (Ret tt, {| fs := <[p := encode e text]> (fs w);
                trace := trace w ++ [EvWrite p (encode e text)] |}).

(** [l[i]] *)
Definition index {A} (l : list A) (i : nat) : outcome A :=
  match l !! i with
  | Some x => Ret x
  | None => Raise IndexError
  end.

(** [dt.datetime.now().strftime("%Y%m%d_%H%M%S")] *)
Definition strftime (t : datetime) : str :=
  zfill 4 (str_of_nat (year t)) ++ zfill 2 (str_of_nat (month t))
  ++ zfill 2 (str_of_nat (day t)) ++ lit "_"
  ++ zfill 2 (str_of_nat (hour t)) ++ zfill 2 (str_of_nat (minute t))
  ++ zfill 2 (str_of_nat (second t)).

(** [dir / name], for a [dir] that does not end with the separator. *)
Definition path_join (dir name : str) : str := dir ++ lit "/" ++ name.

End Prim.

(** ** update_steam_hosts.py *)

Module Update.

Import Prim.

Definition STEAM_DOMAINS : list str :=
  [ lit "api.steampowered.com";
    lit "steamcommunity.com";
    lit "store.steampowered.com";
    lit "help.steampowered.com";
    lit "login.steampowered.com";
    lit "steamcdn-a.akamaihd.net";
    lit "cdn.cloudflare.steamstatic.com" ].

(** Truth value of a string or of a list: non-empty. *)
Definition truthy {A} (l : list A) : bool :=
  match l with [] => false | _ => true end.

Definition resolve_with_dig (e : env) (domain dns : str) : M (list str) :=
  has ← has_cmd e (lit "dig");
  if negb has then ret []
  else
    try_except
      (check_output e [lit "dig"; lit "@" ++ dns; lit "+short"; domain])
      (ret [])
      (fun out =>
         ret (map strip
                (filter (fun line =>
                           truthy (strip line) && negb (char_in COLON line))
                        (splitlines out)))).

(** The body of the loop over the lines of the [nslookup] output. *)
Fixpoint nslookup_loop (lines : list str) (ips : list str)
  : outcome (list str) :=
  match lines with
  | [] => Ret ips
  | line :: rest =>
      let line := strip line in
      if startswith (lower line) (lit "address:") then
        obind (index (split1 COLON line) 1) (fun field =>
          let ip := strip field in
          if truthy ip && negb (char_in COLON ip)
          then nslookup_loop rest (ips ++ [ip])
          else nslookup_loop rest ips)
      else nslookup_loop rest ips
  end.

Definition resolve_with_nslookup (e : env) (domain dns : str)
  : M (list str) :=
  has ← has_cmd e (lit "nslookup");
  if negb has then ret []
  else
    try_except
      (check_output e [lit "nslookup"; domain; dns])
      (ret [])
      (fun out => lift (nslookup_loop (splitlines out) [])).

(** The body of the loop over the lines of the [getent] output. *)
Fixpoint getent_loop (lines : list str) (ips : list str) : list str :=
  match lines with
  | [] => ips
  | line :: rest =>
      match split line with
      | p0 :: _ =>
          if char_in DOT p0 then getent_loop rest (ips ++ [p0])
          else getent_loop rest ips
      | [] => getent_loop rest ips
      end
  end.

Definition resolve_system (e : env) (domain : str) : M (list str) :=
  try_except
    (out ← check_output e [lit "getent"; lit "ahosts"; domain];
     ret (sorted_set (getent_loop (splitlines out) [])))
    (ret [])
    ret.

Fixpoint resolve_domain (e : env) (domain : str) (dns_servers : list str)
  : M (list str) :=
  match dns_servers with
  | [] =>
      (* Fallback to system resolver *)
      ips ← resolve_system e domain;
      ret (sorted_set ips)
  | dns :: rest =>
      ips ← resolve_with_dig e domain dns;
      ips ← (if negb (truthy ips) then resolve_with_nslookup e domain dns
             else ret ips);
      if truthy ips then ret (sorted_set ips)
      else resolve_domain e domain rest
  end.

Record args := {
  hosts_path : str;
  backup_dir : str;
  dns_servers : str;       (* --dns, comma separated *)
  dry_run : bool
}.

(** [any(f" {d}" in f" {stripped} " for d in STEAM_DOMAINS)] *)
Definition is_steam (stripped : str) : bool :=
  existsb (fun d => str_in (lit " " ++ d) (lit " " ++ stripped ++ lit " "))
          STEAM_DOMAINS.

(** The loop that drops the existing entries: [filtered] and [removed]
    are its two accumulators. *)
Fixpoint filter_loop (lines : list str) (filtered : list str) (removed : nat)
  : list str * nat :=
  match lines with
  | [] => (filtered, removed)
  | line :: rest =>
      let stripped := strip line in
      if negb (truthy stripped) || startswith stripped (lit "#") then
        filter_loop rest (filtered ++ [line]) removed
      else if is_steam stripped then
        filter_loop rest filtered (S removed)
      else
        filter_loop rest (filtered ++ [line]) removed
  end.

(** The filter on a whole file content. *)
Definition filter_hosts (content : str) : list str * nat :=
  filter_loop (splitlines content) [] 0.

(** The loop over the managed domains that builds [new_entries]. *)
Fixpoint collect_entries (e : env) (servers : list str) (domains : list str)
  (new_entries : list str) : M (list str) :=
  match domains with
  | [] => ret new_entries
  | domain :: rest =>
      ips ← resolve_domain e domain servers;
      if negb (truthy ips) then
        print (lit "[WARN] failed to resolve " ++ domain ++ lit " via DNS "
               ++ join (lit ", ") servers);;
        collect_entries e servers rest new_entries
      else
        collect_entries e servers rest
          (new_entries ++ map (fun ip => ip ++ [TAB] ++ domain) ips)
  end.

Fixpoint print_all (lines : list str) : M unit :=
  match lines with
  | [] => ret tt
  | line :: rest => print line;; print_all rest
  end.

Definition parse_dns (raw : str) : list str :=
  map strip (filter (fun x => truthy (strip x)) (split_on COMMA raw)).

Definition header (ts : str) : str :=
  lit "# === Steam hosts (auto-generated) " ++ ts ++ lit " ===".

Definition footer : str := lit "# === End Steam hosts ===".

Definition backup_path (e : env) (a : args) : str :=
  path_join (backup_dir a) (lit "hosts_" ++ strftime (now e) ++ lit ".bak").

Definition main (e : env) (a : args) : M Z :=
  let servers := parse_dns (dns_servers a) in
  found ← exists_ (hosts_path a);
  if negb found then
    print_err (lit "[ERROR] hosts not found: " ++ hosts_path a);;
    ret 1%Z
  else
    mkdir (backup_dir a);;
    let ts := strftime (now e) in
    let backup := path_join (backup_dir a) (lit "hosts_" ++ ts ++ lit ".bak") in
    copy2 (hosts_path a) backup;;
    print (lit "[INFO] backup created: " ++ backup);;
    content ← read_text e (hosts_path a);
    let '(filtered, removed) := filter_loop (splitlines content) [] 0 in
    print (lit "[INFO] removed " ++ str_of_nat removed
           ++ lit " existing Steam host entries");;
    new_entries ← collect_entries e servers STEAM_DOMAINS [];
    let final_lines := filtered ++ [header ts] ++ new_entries ++ [footer] in
    if dry_run a then
      print (lit "[INFO] dry-run enabled. Proposed entries:");;
      print_all new_entries;;
      ret 0%Z
    else
      write_text e (hosts_path a) (join [LF] final_lines ++ [LF]);;
      print (lit "[INFO] hosts updated: " ++ hosts_path a);;
      ret 0%Z.

End Update.

(** ** verify_steam_hosts.py *)

Module Verify.

Import Prim.

Definition STEAM_DOMAINS : list str :=
  [ lit "api.steampowered.com";
    lit "steamcommunity.com";
    lit "store.steampowered.com";
    lit "help.steampowered.com";
    lit "login.steampowered.com";
    lit "steamcdn-a.akamaihd.net";
    lit "cdn.cloudflare.steamstatic.com" ].

Definition truthy {A} (l : list A) : bool :=
  match l with [] => false | _ => true end.

(** [for domain in parts[1:]: mapping[domain] = ip] *)
Definition assign_all (ip : str) (domains : list str)
  (mapping : gmap str str) : gmap str str :=
  foldl (fun m domain => <[domain := ip]> m) mapping domains.

(** The loop of [parse_hosts] over the lines of the file. *)
Fixpoint parse_loop (lines : list str) (mapping : gmap str str)
  : gmap str str :=
  match lines with
  | [] => mapping
  | line :: rest =>
      let stripped := strip line in
      if negb (truthy stripped) || startswith stripped (lit "#") then
        parse_loop rest mapping
      else
        let parts := split stripped in
        if (length parts <? 2)%nat then parse_loop rest mapping
        else
          match parts with
          | ip :: domains => parse_loop rest (assign_all ip domains mapping)
          | [] => parse_loop rest mapping
          end
  end.

Definition parse_content (content : str) : gmap str str :=
  parse_loop (splitlines content) ∅.

Definition parse_hosts (e : env) (hosts_path : str) : M (gmap str str) :=
  content ← read_text e hosts_path;
  ret (parse_content content).

Definition system_resolve (e : env) (domain : str) : list str :=
  match getaddrinfo e domain with
  | Ret infos =>
      sorted_set
        (filter (fun ip => negb (char_in COLON ip)) (map ai_host infos))
  | Raise _ => []
  end.

(** [str(ips)] for a list of addresses.  Each address is shown between
    single quotes; the escapes [repr] adds for a quote, a backslash or a
    control character do not arise in the numeric host of a socket
    address. *)
Definition repr_list (ips : list str) : str :=
  lit "[" ++ join (lit ", ") (map (fun ip => lit "'" ++ ip ++ lit "'") ips)
  ++ lit "]".

(** The loop of [main] over the managed domains; [ok] is its flag. *)
Fixpoint check_loop (e : env) (hosts_map : gmap str str)
  (domains : list str) (ok : bool) : M bool :=
  match domains with
  | [] => ret ok
  | domain :: rest =>
      let host_ip := hosts_map !! domain in
      let resolved_ips := system_resolve e domain in
      match host_ip with
      | Some ip =>
          if negb (truthy ip) then
            print (lit "[WARN] hosts missing: " ++ domain);;
            check_loop e hosts_map rest false
          else if bool_decide (ip ∈ resolved_ips) then
            print (lit "[OK] " ++ domain ++ lit " -> " ++ ip);;
            check_loop e hosts_map rest ok
          else
            print (lit "[WARN] " ++ domain ++ lit " hosts=" ++ ip
                   ++ lit " resolved="
                   ++ (if truthy resolved_ips then repr_list resolved_ips
                       else lit "none"));;
            check_loop e hosts_map rest false
      | None =>
          print (lit "[WARN] hosts missing: " ++ domain);;
          check_loop e hosts_map rest false
      end
  end.

Record args := { hosts_path : str }.

Definition main (e : env) (a : args) : M Z :=
  found ← exists_ (hosts_path a);
  if negb found then
    print_err (lit "[ERROR] hosts not found: " ++ hosts_path a);;
    ret 1%Z
  else
    hosts_map ← parse_hosts e (hosts_path a);
    ok ← check_loop e hosts_map STEAM_DOMAINS true;
    ret (if (ok : bool) then 0%Z else 2%Z).

End Verify.

(** ** Concrete environments, for running the model *)

Module Demo.

(** The codec on ASCII text, where it is UTF-8. *)
Definition ascii_decode (data : list byte) : str :=
  filter (fun c => bool_decide (c < 128)) (map Byte.to_N data).

Definition ascii_encode (s : str) : list byte := omap Byte.of_N s.

Definition bytes_of (s : string) : list byte := ascii_encode (lit s).

Definition noon : datetime :=
  {| year := 2024; month := 3; day := 9; hour := 12; minute := 0;
     second := 5 |}.

(** [dig] is installed and answers every query with one address;
    nothing else is. *)
Definition dig_env : env :=
  {| which := fun _ cmd => bool_decide (cmd = lit "dig");
     check_output := fun _ argv =>
       match argv with
       | c :: _ => if bool_decide (c = lit "dig")
                   then Ret (lit "1.2.3.4" ++ [LF])
                   else Raise FileNotFoundError
       | [] => Raise OSError
       end;
     getaddrinfo := fun _ => Raise OSError;
     now := noon;
     decode := ascii_decode;
     encode := ascii_encode |}.

Definition etc_hosts : str := lit "/etc/hosts".

Definition world0 : world :=
  {| fs := {[ etc_hosts := bytes_of "127.0.0.1 localhost" ]}; trace := [] |}.

Definition args0 (dry : bool) : Update.args :=
  {| Update.hosts_path := etc_hosts;
     Update.backup_dir := lit "./hosts_backup";
     Update.dns_servers := lit "8.8.8.8,1.1.1.1";
     Update.dry_run := dry |}.

(** An entry line as the updater generates it. *)
Definition entry_line : str :=
  lit "1.2.3.4" ++ [TAB] ++ lit "api.steampowered.com".

(** A bare entry line whose address and domain are separated by a tab. *)
Definition tab_line : str :=
  lit "198.51.100.9" ++ [TAB] ++ lit "steamcommunity.com".

(** An entry for a host whose name begins like a managed domain. *)
Definition longer_name_line : str := lit "1.2.3.4 steamcommunity.community".

Definition commented_hosts : str :=
  lit "# steamcommunity.com" ++ [LF] ++ lit "1.2.3.4 steamcommunity.com".

(** The text of the hosts file after [n] runs of the updater. *)
Fixpoint world_after (n : nat) : world :=
  match n with
  | O => world0
  | S n' => (Update.main dig_env (args0 false) (world_after n')).2
  end.

Definition hosts_lines_after (n : nat) : list str :=
  match fs (world_after n) !! etc_hosts with
  | Some data => splitlines (ascii_decode data)
  | None => []
  end.

(** No tool is installed but [getent], whose answer is an IPv4-mapped
    IPv6 address. *)
Definition mapped_env : env :=
  {| which := fun _ _ => false;
     check_output := fun _ argv =>
       match argv with
       | c :: _ =>
           if bool_decide (c = lit "getent")
           then Ret (lit "::ffff:1.2.3.4  STREAM api.steampowered.com"
                     ++ [LF] ++ lit "::ffff:1.2.3.4  DGRAM  " ++ [LF])
           else Raise FileNotFoundError
       | [] => Raise OSError
       end;
     getaddrinfo := fun _ => Raise OSError;
     now := noon;
     decode := ascii_decode;
     encode := ascii_encode |}.

(** Nothing resolves: no tool is installed and every invocation fails. *)
Definition bare_env : env :=
  {| which := fun _ _ => false;
     check_output := fun _ _ => Raise FileNotFoundError;
     getaddrinfo := fun _ => Raise OSError;
     now := noon;
     decode := ascii_decode;
     encode := ascii_encode |}.

(** The name service answers every query with one IPv4 and one IPv6
    address. *)
Definition named_env : env :=
  {| which := fun _ _ => false;
     check_output := fun _ _ => Raise FileNotFoundError;
     getaddrinfo := fun _ =>
       Ret [ {| ai_family := 2; ai_host := lit "1.2.3.4"; ai_port := 0 |};
             {| ai_family := 10; ai_host := lit "2001:db8::1";
                ai_port := 0 |} ];
     now := noon;
     decode := ascii_decode;
     encode := ascii_encode |}.

Definition managed_hosts : list byte :=
  ascii_encode
    (lit "127.0.0.1 localhost" ++ [LF]
     ++ lit "1.2.3.4 api.steampowered.com steamcommunity.com" ++ [LF]
     ++ lit "1.2.3.4" ++ [TAB] ++ lit "store.steampowered.com" ++ [LF]
     ++ lit "1.2.3.4 help.steampowered.com login.steampowered.com" ++ [LF]
     ++ lit "1.2.3.4 steamcdn-a.akamaihd.net cdn.cloudflare.steamstatic.com"
     ++ [LF]).

Definition managed_world : world :=
  {| fs := {[ etc_hosts := managed_hosts ]}; trace := [] |}.

Definition verify_args : Verify.args := {| Verify.hosts_path := etc_hosts |}.

End Demo.

(** ** Vocabulary of the statements *)

Module Spec.

Import Update.

(** The world [w] after the further effects [tr]. *)
Definition after (w : world) (tr : list event) : world :=
  {| fs := fs w; trace := trace w ++ tr |}.

Definition dig_argv (domain dns : str) : list str :=
  [lit "dig"; lit "@" ++ dns; lit "+short"; domain].

Definition nslookup_argv (domain dns : str) : list str :=
  [lit "nslookup"; domain; dns].

Definition getent_argv (domain : str) : list str :=
  [lit "getent"; lit "ahosts"; domain].

(** What [resolve_with_dig] keeps of an output of [dig]. *)
Definition dig_parse (out : str) : list str :=
  map strip
    (filter (fun line => truthy (strip line) && negb (char_in COLON line))
            (splitlines out)).

(** What the loop of [resolve_with_nslookup] returns when it returns. *)
Definition nslookup_parse (lines ips : list str) : list str :=
  match nslookup_loop lines ips with
  | Ret ips' => ips'
  | Raise _ => []
  end.

(** The chain of the specification, read as rules.  [Chain e domain
    servers w used fb ips w'] is a run from [w] to [w'] that consults the
    servers [used], falls back to the system resolver iff [fb], and
    returns [ips]:
    - no server is left: the system resolver is asked;
    - [dig] answers for the first server: the run stops there;
    - [dig] yields nothing and [nslookup] answers for that server: the run
      stops there;
    - both yield nothing: the run goes on with the next server. *)
Inductive Chain (e : env) (domain : str)
  : list str -> world -> list str -> bool -> list str -> world -> Prop :=
| Chain_fallback w ips w' :
    resolve_system e domain w = (Ret ips, w') ->
    Chain e domain [] w [] true (sorted_set ips) w'
| Chain_dig dns rest w ips w' :
    resolve_with_dig e domain dns w = (Ret ips, w') ->
    ips ≠ [] ->
    Chain e domain (dns :: rest) w [dns] false (sorted_set ips) w'
| Chain_nslookup dns rest w w1 ips w' :
    resolve_with_dig e domain dns w = (Ret [], w1) ->
    resolve_with_nslookup e domain dns w1 = (Ret ips, w') ->
    ips ≠ [] ->
    Chain e domain (dns :: rest) w [dns] false (sorted_set ips) w'
| Chain_next dns rest w w1 w2 used fb ips w' :
    resolve_with_dig e domain dns w = (Ret [], w1) ->
    resolve_with_nslookup e domain dns w1 = (Ret [], w2) ->
    Chain e domain rest w2 used fb ips w' ->
    Chain e domain (dns :: rest) w (dns :: used) fb ips w'.

Definition no_colon (ip : str) : Prop := char_in COLON ip = false.

(** The effects of one step of the chain: a probe of [PATH], then at most
    one invocation. *)
Definition step_trace (probe : str) (argv : list str) (tr : list event)
  : Prop :=
  tr = [EvWhich probe] ∨ tr = [EvWhich probe; EvExec argv].

(** The invocations of a run of the chain for [domain] are [dig] and
    [nslookup] queries to the servers [used], and [getent]. *)
Definition invocations_within (domain : str) (used : list str)
  (tr : list event) : Prop :=
  ∀ argv, EvExec argv ∈ tr →
    argv = getent_argv domain ∨
    ∃ dns, dns ∈ used ∧
           (argv = dig_argv domain dns ∨ argv = nslookup_argv domain dns).

(** How many times an event occurs in a trace. *)
Definition occurrences (ev : event -> bool) (tr : list event) : nat :=
  length (filter ev tr).

Definition is_which (cmd : str) (ev : event) : bool :=
  match ev with
  | EvWhich c => bool_decide (c = cmd)
  | _ => false
  end.

Definition is_exec_of (cmd : str) (ev : event) : bool :=
  match ev with
  | EvExec (c :: _) => bool_decide (c = cmd)
  | _ => false
  end.

Definition is_write (ev : event) : bool :=
  match ev with
  | EvWrite _ _ => true
  | _ => false
  end.

(** The resolutions of a list of domains one after the other, without the
    reporting of [main] in between. *)
Fixpoint resolve_all (e : env) (servers : list str) (domains : list str)
  : M (list (list str)) :=
  match domains with
  | [] => ret []
  | domain :: rest =>
      ips ← resolve_domain e domain servers;
      more ← resolve_all e servers rest;
      ret (ips :: more)
  end.

(** A computation that only probes and invokes tools, and whose course
    depends on nothing but the probes and invocations made before it. *)
Definition tool_step {A} (m : M A) : Prop :=
  ∀ w1 w2, tool_history (trace w1) = tool_history (trace w2) →
    ∃ a tr, m w1 = (Ret a, after w1 tr) ∧ m w2 = (Ret a, after w2 tr) ∧
            Forall (fun ev => is_tool ev = true) tr.

(** The entry lines of one domain. *)
Definition entries_of (domain : str) (ips : list str) : list str :=
  map (fun ip => ip ++ [TAB] ++ domain) ips.

(** The effects of [main] up to the report of the filter, on a hosts
    file that holds [data]. *)
Definition prelude (e : env) (a : args) (data : list byte) : list event :=
  [ EvMkdir (backup_dir a);
    EvCopy (hosts_path a) (backup_path e a);
    EvOut (lit "[INFO] backup created: " ++ backup_path e a);
    EvRead (hosts_path a);
    EvOut (lit "[INFO] removed "
           ++ str_of_nat (filter_hosts (decode e data)).2
           ++ lit " existing Steam host entries") ].

(** The world once the backup is made and the file is read. *)
Definition backed_up (e : env) (a : args) (data : list byte) (w : world)
  : world :=
  {| fs := <[backup_path e a := data]> (fs w);
     trace := trace w ++ prelude e a data |}.

(** The text [main] writes for the entry lines [entries]. *)
Definition new_text (e : env) (a : args) (data : list byte)
  (entries : list str) : str :=
  join [LF] ((filter_hosts (decode e data)).1
             ++ [header (Prim.strftime (now e))] ++ entries ++ [footer])
  ++ [LF].

(** The lines the filter of the updater drops. *)
Definition dropped (line : str) : bool :=
  let stripped := strip line in
  truthy stripped && negb (startswith stripped (lit "#"))
  && is_steam stripped.

(** The filter on a list of lines. *)
Definition filter_lines (lines : list str) : list str * nat :=
  filter_loop lines [] 0.

(** The domains that occur in a line as a token between white space. *)
Definition has_domain_token (line : str) : bool :=
  existsb (fun d => bool_decide (d ∈ split line)) STEAM_DOMAINS.

(** The test the verifier applies to one managed domain. *)
Definition good (e : env) (hosts_map : gmap str str) (domain : str) : bool :=
  match hosts_map !! domain with
  | Some ip =>
      Verify.truthy ip && bool_decide (ip ∈ Verify.system_resolve e domain)
  | None => false
  end.

End Spec.

Import Spec.

(** ** Vocabulary of the further statements *)

Module More.

(** A string that holds no line boundary, no white space. *)
Definition no_break (s : str) : Prop :=
  Forall (fun c => is_linebreak c = false) s.

Definition no_space (s : str) : Prop :=
  Forall (fun c => is_space c = false) s.

(** An address fit for a line of its own: not empty, no white space at
    either end, no line boundary inside. *)
Definition tidy (ip : str) : Prop :=
  ip ≠ [] ∧ strip ip = ip ∧ no_break ip.

(** An address that makes one field of an entry: not empty, free of
    white space, and not starting with the comment sign. *)
Definition plain (ip : str) : Prop :=
  ip ≠ [] ∧ no_space ip ∧ startswith ip (lit "#") = false.

(** What [parse_hosts] takes from one line: the address and the domains
    that follow it, when the line is an entry with at least one domain. *)
Definition entry_of (line : str) : option (str * list str) :=
  let stripped := strip line in
  if negb (Verify.truthy stripped) || startswith stripped (lit "#") then None
  else
    match split stripped with
    | ip :: domain :: domains => Some (ip, domain :: domains)
    | _ => None
    end.

(** The line names the domain after an address. *)
Definition names (domain : str) (line : str) : Prop :=
  ∃ ip domains, entry_of line = Some (ip, domains) ∧ domain ∈ domains.

(** The lines printed on standard output, in order. *)
Definition outputs (tr : list event) : list str :=
  omap (fun ev => match ev with EvOut line => Some line | _ => None end) tr.

(** The warning of the updater for a domain that did not resolve. *)
Definition warning (servers : list str) (domain : str) : str :=
  lit "[WARN] failed to resolve " ++ domain ++ lit " via DNS "
  ++ join (lit ", ") servers.

(** The domains whose resolution came back empty. *)
Fixpoint failed (domains : list str) (rs : list (list str)) : list str :=
  match domains, rs with
  | domain :: domains', ips :: rs' =>
      if Update.truthy ips then failed domains' rs'
      else domain :: failed domains' rs'
  | _, _ => []
  end.

End More.

Import More.

(** ** Properties of the string operations *)

Section StrFacts.

Lemma startswith_app (s p : str) :
  startswith s p = true ↔ ∃ t, s = p ++ t.
Proof.
  revert s. induction p as [|a p IH]; intros s; simpl.
  - split; [intros _; by exists s|done].
  - destruct s as [|c s].
    + split; [done|]. intros [t Ht]. discriminate.
    + rewrite andb_true_iff, IH, N.eqb_eq. split.
      * intros [-> [t ->]]. eauto.
      * intros [t Ht]. injection Ht as -> ->. eauto.
Qed.

Lemma str_in_spec (sub s : str) :
  str_in sub s = true ↔ ∃ l r, s = l ++ sub ++ r.
Proof.
  induction s as [|c s IH]; simpl.
  - rewrite orb_false_r, startswith_app. split.
    + intros [t Ht]. exists [], t. done.
    + intros (l & r & H). symmetry in H.
      apply app_eq_nil in H as [-> H]. exists r. done.
  - rewrite orb_true_iff, startswith_app, IH. split.
    + intros [[t Ht]|(l & r & ->)].
      * exists [], t. done.
      * exists (c :: l), r. done.
    + intros (l & r & H). destruct l as [|c' l].
      * left. exists r. done.
      * right. injection H as -> ->. eauto.
Qed.

Lemma char_in_spec (c : char) (s : str) : char_in c s = true ↔ c ∈ s.
Proof.
  unfold char_in. rewrite str_in_spec. split.
  - intros (l & r & ->). set_solver.
  - intros (l & r & ->)%list_elem_of_split. exists l, r. done.
Qed.

Lemma char_in_false (c : char) (s : str) : char_in c s = false ↔ c ∉ s.
Proof.
  rewrite <- char_in_spec. destruct (char_in c s); split; done.
Qed.

Lemma lstrip_suffix (s : str) : ∃ l, s = l ++ lstrip s.
Proof.
  induction s as [|c s [l IH]]; simpl.
  - by exists [].
  - destruct (is_space c).
    + exists (c :: l). simpl. by f_equal.
    + by exists [].
Qed.

Lemma rstrip_prefix (s : str) : ∃ r, s = rstrip s ++ r.
Proof.
  induction s as [|c s [r IH]]; simpl.
  - by exists [].
  - destruct (rstrip s) as [|c' t] eqn:E.
    + destruct (is_space c).
      * exists (c :: s). done.
      * exists s. done.
    + exists r. simpl. by f_equal.
Qed.

(** A stripped string is a contiguous part of the string. *)
Lemma strip_infix (s : str) : ∃ l r, s = l ++ strip s ++ r.
Proof.
  unfold strip. destruct (lstrip_suffix s) as [l Hl].
  destruct (rstrip_prefix (lstrip s)) as [r Hr].
  exists l, r. by rewrite <- Hr.
Qed.

Lemma strip_subseteq (s : str) (c : char) : c ∈ strip s → c ∈ s.
Proof.
  destruct (strip_infix s) as (l & r & H). intros Hc. rewrite H. set_solver.
Qed.

(** Every piece of [s.split()] is a non-empty string. *)
Lemma split_from_nonempty (cur s : str) :
  Forall (fun piece => piece ≠ []) (split_from cur s).
Proof.
  revert cur. induction s as [|c s IH]; intros cur; simpl.
  - destruct cur as [|a cur]; [constructor|].
    constructor; [|constructor]. simpl. by destruct (rev cur).
  - destruct (is_space c); [|apply IH].
    destruct cur as [|a cur]; [apply IH|].
    constructor; [|apply IH]. simpl. by destruct (rev cur).
Qed.

Lemma split_nonempty (s piece : str) : piece ∈ split s → piece ≠ [].
Proof.
  intros H. by eapply (proj1 (Forall_forall _ _) (split_from_nonempty [] s)).
Qed.

End StrFacts.

Arguments startswith : simpl never.
Arguments str_in : simpl never.
Arguments char_in : simpl never.
Arguments strip : simpl never.
Arguments split : simpl never.
Arguments splitlines : simpl never.
Arguments sorted_set : simpl never.

(** ** The order of strings and [sorted(set(...))] *)

Section Sorted.

#[global] Instance str_le_total : Total str_le.
Proof.
  intros s. unfold str_le.
  induction s as [|a s IH]; intros [|b t]; simpl; auto.
  destruct (N.ltb_spec a b), (N.ltb_spec b a), (N.eqb_spec a b),
    (N.eqb_spec b a); simpl; auto; try lia.
Qed.

#[global] Instance str_le_trans : Transitive str_le.
Proof.
  intros s. unfold str_le.
  induction s as [|a s IH]; intros [|b t] [|c u]; simpl; auto; try done.
  destruct (N.ltb_spec a b), (N.ltb_spec b c), (N.ltb_spec a c),
    (N.eqb_spec a b), (N.eqb_spec b c), (N.eqb_spec a c);
    simpl; auto; try done; try lia.
  apply IH.
Qed.

Lemma sorted_set_sorted (xs : list str) : Sorted str_le (sorted_set xs).
Proof. apply (Sorted_merge_sort str_le). Qed.

Lemma sorted_set_nodup (xs : list str) : NoDup (sorted_set xs).
Proof.
  unfold sorted_set. rewrite merge_sort_Permutation. apply NoDup_elements.
Qed.

Lemma elem_of_sorted_set (xs : list str) (x : str) :
  x ∈ sorted_set xs ↔ x ∈ xs.
Proof.
  unfold sorted_set.
  rewrite merge_sort_Permutation, elem_of_elements, elem_of_list_to_set.
  done.
Qed.

End Sorted.

(** ** The resolvers, step by step *)

Section Resolvers.

Context (e : env).

Lemma after_nil (w : world) : after w [] = w.
Proof. destruct w. unfold after. simpl. by rewrite app_nil_r. Qed.

Lemma after_after (w : world) (t1 t2 : list event) :
  after (after w t1) t2 = after w (t1 ++ t2).
Proof. unfold after. simpl. by rewrite app_assoc. Qed.

Lemma log_after (ev : event) (w : world) : log ev w = after w [ev].
Proof. done. Qed.

Lemma tool_history_app (t1 t2 : list event) :
  tool_history (t1 ++ t2) = tool_history t1 ++ tool_history t2.
Proof. apply filter_app. Qed.

(** [resolve_with_dig] in one equation. *)
Lemma resolve_with_dig_run (domain dns : str) (w : world) :
  Update.resolve_with_dig e domain dns w =
    let h := tool_history (trace w) in
    if which e h (lit "dig") then
      match check_output e (h ++ [EvWhich (lit "dig")]) (dig_argv domain dns)
      with
      | Ret out =>
          (Ret (dig_parse out),
           after w [EvWhich (lit "dig"); EvExec (dig_argv domain dns)])
      | Raise _ =>
          (Ret [],
           after w [EvWhich (lit "dig"); EvExec (dig_argv domain dns)])
      end
    else (Ret [], after w [EvWhich (lit "dig")]).
Proof.
  unfold Update.resolve_with_dig, mbind, M_bind, bind, Prim.has_cmd,
    try_except, Prim.check_output. simpl.
  destruct (which e (tool_history (trace w)) (lit "dig")); simpl; [|done].
  rewrite tool_history_app. simpl.
  change (tool_history [EvWhich (lit "dig")]) with [EvWhich (lit "dig")].
  rewrite !log_after, after_after. simpl.
  by destruct (check_output e _ _).
Qed.

Lemma lower_char_colon (c : char) : lower_char c = COLON → c = COLON.
Proof.
  unfold lower_char, COLON.
  destruct (N.leb_spec 65 c), (N.leb_spec c 90); simpl; lia.
Qed.

Lemma startswith_elem (s p : str) (c : char) :
  startswith s p = true → c ∈ p → c ∈ s.
Proof. intros [t ->]%startswith_app. set_solver. Qed.

Lemma split1_from_cut (sep : char) (cur s : str) :
  sep ∈ s → ∃ a b, split1_from sep cur s = [a; b].
Proof.
  revert cur. induction s as [|c s IH]; intros cur H.
  - by apply elem_of_nil in H.
  - simpl. destruct (N.eqb_spec c sep) as [->|Hne]; [eauto|].
    apply IH. apply elem_of_cons in H as [->|H]; done.
Qed.

(** The subscript [[1]] of the loop of [resolve_with_nslookup] is in
    range on every line the loop applies it to. *)
Lemma address_line_field (line : str) :
  startswith (lower line) (lit "address:") = true →
  ∃ field, Prim.index (split1 COLON line) 1 = Ret field.
Proof.
  intros H.
  assert (COLON ∈ lower line) as Hc.
  { eapply startswith_elem; [done|]. apply (bool_decide_unpack _). by vm_compute. }
  apply list_elem_of_In, in_map_iff in Hc as (c & Hc & Hin).
  apply lower_char_colon in Hc as ->. apply list_elem_of_In in Hin.
  destruct (split1_from_cut COLON [] line Hin) as (a & b & Hs).
  exists b. unfold Prim.index, split1. by rewrite Hs.
Qed.

Lemma nslookup_loop_total (lines ips : list str) :
  ∃ ips', Update.nslookup_loop lines ips = Ret ips'.
Proof.
  revert ips. induction lines as [|line lines IH]; intros ips; simpl.
  - eauto.
  - destruct (startswith (lower (strip line)) (lit "address:")) eqn:E;
      [|apply IH].
    destruct (address_line_field _ E) as [field ->]. simpl.
    destruct (_ && _); apply IH.
Qed.

Lemma nslookup_loop_parse (lines ips : list str) :
  Update.nslookup_loop lines ips = Ret (nslookup_parse lines ips).
Proof.
  unfold nslookup_parse.
  by destruct (nslookup_loop_total lines ips) as [ips' ->].
Qed.

Lemma nslookup_loop_no_colon (lines ips ips' : list str) :
  Update.nslookup_loop lines ips = Ret ips' →
  Forall no_colon ips → Forall no_colon ips'.
Proof.
  revert ips. induction lines as [|line lines IH]; intros ips; simpl.
  - by intros [= ->].
  - destruct (startswith (lower (strip line)) (lit "address:"));
      [|apply IH].
    destruct (Prim.index _ _) as [field|]; simpl; [|done].
    destruct (Update.truthy (strip field)) eqn:Et; simpl; [|apply IH].
    destruct (char_in COLON (strip field)) eqn:Ec; simpl; [apply IH|].
    intros H Hips. apply (IH _ H). apply Forall_app. split; [done|].
    by constructor.
Qed.

(** [resolve_with_nslookup] in one equation. *)
Lemma resolve_with_nslookup_run (domain dns : str) (w : world) :
  Update.resolve_with_nslookup e domain dns w =
    let h := tool_history (trace w) in
    if which e h (lit "nslookup") then
      match check_output e (h ++ [EvWhich (lit "nslookup")])
              (nslookup_argv domain dns)
      with
      | Ret out =>
          (Ret (nslookup_parse (splitlines out) []),
           after w [EvWhich (lit "nslookup");
                    EvExec (nslookup_argv domain dns)])
      | Raise _ =>
          (Ret [],
           after w [EvWhich (lit "nslookup");
                    EvExec (nslookup_argv domain dns)])
      end
    else (Ret [], after w [EvWhich (lit "nslookup")]).
Proof.
  unfold Update.resolve_with_nslookup, mbind, M_bind, bind, Prim.has_cmd,
    try_except, Prim.check_output, lift. simpl.
  destruct (which e (tool_history (trace w)) (lit "nslookup")); simpl;
    [|done].
  rewrite tool_history_app. simpl.
  change (tool_history [EvWhich (lit "nslookup")])
    with [EvWhich (lit "nslookup")].
  rewrite !log_after, after_after. simpl.
  destruct (check_output e _ _); [|done].
  by rewrite nslookup_loop_parse.
Qed.

(** [resolve_system] in one equation. *)
Lemma resolve_system_run (domain : str) (w : world) :
  Update.resolve_system e domain w =
    match check_output e (tool_history (trace w)) (getent_argv domain) with
    | Ret out =>
        (Ret (sorted_set (Update.getent_loop (splitlines out) [])),
         after w [EvExec (getent_argv domain)])
    | Raise _ => (Ret [], after w [EvExec (getent_argv domain)])
    end.
Proof.
  unfold Update.resolve_system, mbind, M_bind, bind, try_except,
    Prim.check_output, ret. simpl.
  rewrite log_after.
  by destruct (check_output e _ _).
Qed.

Lemma dig_parse_no_colon (out : str) : Forall no_colon (dig_parse out).
Proof.
  unfold dig_parse. apply Forall_forall. intros ip Hip.
  apply list_elem_of_In, in_map_iff in Hip as (line & <- & Hline).
  apply list_elem_of_In, list_elem_of_filter in Hline as [Hline _].
  apply Is_true_true, andb_true_iff in Hline as [_ Hline].
  apply negb_true_iff, char_in_false in Hline.
  apply char_in_false. intros Hc. by apply Hline, strip_subseteq.
Qed.

Lemma nslookup_parse_no_colon (lines : list str) :
  Forall no_colon (nslookup_parse lines []).
Proof.
  eapply nslookup_loop_no_colon; [apply nslookup_loop_parse|constructor].
Qed.

Lemma resolve_with_dig_result (domain dns : str) (w : world) :
  ∃ ips tr,
    Update.resolve_with_dig e domain dns w = (Ret ips, after w tr) ∧
    step_trace (lit "dig") (dig_argv domain dns) tr ∧
    Forall no_colon ips.
Proof.
  rewrite resolve_with_dig_run. cbv zeta. unfold step_trace.
  destruct (which e _ _); [destruct (check_output e _ _) as [out|x]|];
    eauto 8 using dig_parse_no_colon.
Qed.

Lemma resolve_with_nslookup_result (domain dns : str) (w : world) :
  ∃ ips tr,
    Update.resolve_with_nslookup e domain dns w = (Ret ips, after w tr) ∧
    step_trace (lit "nslookup") (nslookup_argv domain dns) tr ∧
    Forall no_colon ips.
Proof.
  rewrite resolve_with_nslookup_run. cbv zeta. unfold step_trace.
  destruct (which e _ _); [destruct (check_output e _ _) as [out|x]|];
    eauto 8 using nslookup_parse_no_colon.
Qed.

Lemma resolve_system_result (domain : str) (w : world) :
  ∃ ips,
    Update.resolve_system e domain w =
      (Ret ips, after w [EvExec (getent_argv domain)]).
Proof.
  rewrite resolve_system_run. destruct (check_output e _ _); eauto.
Qed.

Lemma resolve_domain_nil (domain : str) (w : world) :
  Update.resolve_domain e domain [] w =
    match Update.resolve_system e domain w with
    | (Ret ips, w') => (Ret (sorted_set ips), w')
    | (Raise x, w') => (Raise x, w')
    end.
Proof. reflexivity. Qed.

Lemma resolve_domain_cons (domain dns : str) (rest : list str) (w : world) :
  Update.resolve_domain e domain (dns :: rest) w =
    match Update.resolve_with_dig e domain dns w with
    | (Ret ips, w1) =>
        match (if negb (Update.truthy ips)
               then Update.resolve_with_nslookup e domain dns
               else ret ips) w1
        with
        | (Ret ips', w2) =>
            if Update.truthy ips' then (Ret (sorted_set ips'), w2)
            else Update.resolve_domain e domain rest w2
        | (Raise x, w2) => (Raise x, w2)
        end
    | (Raise x, w1) => (Raise x, w1)
    end.
Proof.
  simpl. unfold mbind, M_bind, bind.
  destruct (Update.resolve_with_dig e domain dns w) as [[ips|x] w1]; [|done].
  destruct ((if negb (Update.truthy ips)
             then Update.resolve_with_nslookup e domain dns
             else ret ips) w1) as [[ips'|x] w2]; [|done].
  by destruct (Update.truthy ips').
Qed.

Lemma occurrences_app (ev : event → bool) (t1 t2 : list event) :
  occurrences ev (t1 ++ t2) = (occurrences ev t1 + occurrences ev t2)%nat.
Proof. unfold occurrences. by rewrite filter_app, length_app. Qed.

End Resolvers.

(** ** The resolution chain *)

Section Chain.

Context (e : env) (domain : str).

Lemma invocations_within_app (u1 u2 : list str) (t1 t2 : list event) :
  invocations_within domain u1 t1 → invocations_within domain u2 t2 →
  invocations_within domain (u1 ++ u2) (t1 ++ t2).
Proof.
  intros H1 H2 argv [H|H]%elem_of_app.
  - destruct (H1 _ H) as [|(dns & ? & ?)]; [by left|].
    right. exists dns. split; [apply elem_of_app; by left|done].
  - destruct (H2 _ H) as [|(dns & ? & ?)]; [by left|].
    right. exists dns. split; [apply elem_of_app; by right|done].
Qed.

Lemma exec_in_step (probe : str) (argv argv' : list str) (tr : list event) :
  step_trace probe argv tr → EvExec argv' ∈ tr → argv' = argv.
Proof.
  intros [-> | ->] H.
  - by apply list_elem_of_singleton in H.
  - apply elem_of_cons in H as [H|H]; [done|].
    apply list_elem_of_singleton in H. congruence.
Qed.

Lemma dig_step_facts (dns : str) (tr : list event) :
  step_trace (lit "dig") (dig_argv domain dns) tr →
  occurrences (is_which (lit "dig")) tr = 1%nat ∧
  occurrences (is_which (lit "nslookup")) tr = 0%nat ∧
  occurrences (is_exec_of (lit "getent")) tr = 0%nat ∧
  invocations_within domain [dns] tr.
Proof.
  intros Htr. split_and!.
  1-3: by destruct Htr as [-> | ->].
  intros argv ->%(exec_in_step _ _ _ _ Htr).
  right. exists dns. split; [apply list_elem_of_singleton|]; auto.
Qed.

Lemma nslookup_step_facts (dns : str) (tr : list event) :
  step_trace (lit "nslookup") (nslookup_argv domain dns) tr →
  occurrences (is_which (lit "dig")) tr = 0%nat ∧
  occurrences (is_which (lit "nslookup")) tr = 1%nat ∧
  occurrences (is_exec_of (lit "getent")) tr = 0%nat ∧
  invocations_within domain [dns] tr.
Proof.
  intros Htr. split_and!.
  1-3: by destruct Htr as [-> | ->].
  intros argv ->%(exec_in_step _ _ _ _ Htr).
  right. exists dns. split; [apply list_elem_of_singleton|]; auto.
Qed.

(** C4.  The chain returns, and its run follows the rules of [Chain]:
    the servers are consulted in the order given, [dig] first and
    [nslookup] only when [dig] yields nothing for that server; the run
    stops at the first server that yields a result, so the servers
    consulted ([used]) are an initial part of the list, each is probed
    for [dig] once, and every invocation of [dig] or [nslookup] names one
    of them; the system resolver is invoked once when every server was
    consulted in vain, and not at all otherwise. *)
Theorem resolve_domain_chain (servers : list str) (w : world) :
  ∃ used unused fb ips tr,
    Update.resolve_domain e domain servers w = (Ret ips, after w tr) ∧
    Chain e domain servers w used fb ips (after w tr) ∧
    servers = used ++ unused ∧
    (fb = true → unused = []) ∧
    occurrences (is_which (lit "dig")) tr = length used ∧
    (occurrences (is_which (lit "nslookup")) tr ≤ length used)%nat ∧
    occurrences (is_exec_of (lit "getent")) tr = (if fb then 1 else 0)%nat ∧
    invocations_within domain used tr.
Proof.
  revert w. induction servers as [|dns rest IH]; intros w.
  - destruct (resolve_system_result e domain w) as [ips Hs].
    exists [], [], true, (sorted_set ips), [EvExec (getent_argv domain)].
    rewrite resolve_domain_nil, Hs. split_and!; try done.
    + by constructor.
    + intros argv H. left. apply list_elem_of_singleton in H. congruence.
  - destruct (resolve_with_dig_result e domain dns w)
      as (ips1 & tr1 & Hd & Ht1 & _).
    destruct (dig_step_facts dns tr1 Ht1) as (D1 & D2 & D3 & D4).
    rewrite resolve_domain_cons, Hd.
    destruct ips1 as [|ip1 ips1]; cbn [Update.truthy negb].
    + destruct (resolve_with_nslookup_result e domain dns (after w tr1))
        as (ips2 & tr2 & Hn & Ht2 & _).
      destruct (nslookup_step_facts dns tr2 Ht2) as (N1 & N2 & N3 & N4).
      rewrite Hn. rewrite after_after in Hn |- *.
      destruct ips2 as [|ip2 ips2]; cbn [Update.truthy negb].
      * destruct (IH (after w (tr1 ++ tr2)))
          as (used & unused & fb & ips & tr & Hr & Hc & Hs & Hfb & O1 & O2
              & O3 & Hinv).
        rewrite after_after in Hr, Hc.
        exists (dns :: used), unused, fb, ips, ((tr1 ++ tr2) ++ tr).
        rewrite Hr. split_and!; try done.
        -- eapply Chain_next; eauto.
        -- simpl. by f_equal.
        -- rewrite !occurrences_app. simpl. lia.
        -- rewrite !occurrences_app. simpl. lia.
        -- rewrite !occurrences_app. lia.
        -- apply (invocations_within_app [dns] used); [|done].
           intros argv [H|H]%elem_of_app; eauto.
      * exists [dns], rest, false, (sorted_set (ip2 :: ips2)), (tr1 ++ tr2).
        split_and!; try done.
        -- eapply Chain_nslookup; eauto.
        -- rewrite occurrences_app. simpl. lia.
        -- rewrite occurrences_app. simpl. lia.
        -- rewrite occurrences_app. lia.
        -- intros argv [H|H]%elem_of_app; eauto.
    + exists [dns], rest, false, (sorted_set (ip1 :: ips1)), tr1.
      split_and!; try done.
      * eapply Chain_dig; eauto.
      * simpl. lia.
Qed.

(** What holds of the result on every path, and what holds of it when a
    server answered: it is in ascending order without repetition, and an
    answer of [dig] or [nslookup] holds no colon. *)
Lemma chain_result_shape (servers used : list str) (w w' : world)
  (fb : bool) (ips : list str) :
  Chain e domain servers w used fb ips w' →
  Sorted str_le ips ∧ NoDup ips ∧ (fb = false → Forall no_colon ips).
Proof.
  assert (∀ xs, Forall no_colon xs → Forall no_colon (sorted_set xs)) as Hnc.
  { intros xs Hxs. apply Forall_forall. intros x Hx.
    apply (proj1 (elem_of_sorted_set _ _)) in Hx.
    rewrite Forall_forall in Hxs. by apply Hxs. }
  induction 1 as [w ips w' H|dns rest w ips w' H Hne
                 |dns rest w w1 ips w' H1 H2 Hne
                 |dns rest w w1 w2 used fb ips w' H1 H2 Hc IH].
  - split_and!; [apply sorted_set_sorted|apply sorted_set_nodup|done].
  - split_and!; [apply sorted_set_sorted|apply sorted_set_nodup|].
    intros _. apply Hnc.
    destruct (resolve_with_dig_result e domain dns w) as (? & ? & Hr & _ & ?).
    congruence.
  - split_and!; [apply sorted_set_sorted|apply sorted_set_nodup|].
    intros _. apply Hnc.
    destruct (resolve_with_nslookup_result e domain dns w1)
      as (? & ? & Hr & _ & ?).
    congruence.
  - done.
Qed.

(** The three steps and the chain are [tool_step]s. *)
Lemma tool_history_after (w : world) (tr : list event) :
  Forall (fun ev => is_tool ev = true) tr →
  tool_history (trace (after w tr)) = tool_history (trace w) ++ tr.
Proof.
  intros H. simpl. rewrite tool_history_app. f_equal.
  induction H as [|ev tr Hev _ IH]; [done|].
  unfold tool_history in *. rewrite filter_cons, Hev. simpl. by f_equal.
Qed.

Lemma tool_step_dig (dns : str) :
  tool_step (Update.resolve_with_dig e domain dns).
Proof.
  intros w1 w2 H. rewrite !resolve_with_dig_run. cbv zeta. rewrite <- H.
  destruct (which e _ _); [destruct (check_output e _ _) as [out|x]|];
    eexists _, _; split_and!; try done; by repeat constructor.
Qed.

Lemma tool_step_nslookup (dns : str) :
  tool_step (Update.resolve_with_nslookup e domain dns).
Proof.
  intros w1 w2 H. rewrite !resolve_with_nslookup_run. cbv zeta. rewrite <- H.
  destruct (which e _ _); [destruct (check_output e _ _) as [out|x]|];
    eexists _, _; split_and!; try done; by repeat constructor.
Qed.

Lemma tool_step_system : tool_step (Update.resolve_system e domain).
Proof.
  intros w1 w2 H. rewrite !resolve_system_run. rewrite <- H.
  destruct (check_output e _ _) as [out|x];
    eexists _, _; split_and!; try done; by repeat constructor.
Qed.

Lemma tool_step_resolve_domain (servers : list str) :
  tool_step (Update.resolve_domain e domain servers).
Proof.
  induction servers as [|dns rest IH]; intros w1 w2 H.
  - rewrite !resolve_domain_nil.
    destruct (tool_step_system w1 w2 H) as (ips & tr & -> & -> & Htr).
    eauto.
  - rewrite !resolve_domain_cons.
    destruct (tool_step_dig dns w1 w2 H) as (ips & tr & -> & -> & Htr).
    assert (tool_history (trace (after w1 tr))
            = tool_history (trace (after w2 tr))) as H'.
    { rewrite !tool_history_after by done. by f_equal. }
    destruct ips as [|ip ips]; cbn [Update.truthy negb].
    + destruct (tool_step_nslookup dns _ _ H')
        as (ips2 & tr2 & -> & -> & Htr2).
      rewrite !after_after.
      destruct ips2 as [|ip2 ips2]; cbn [Update.truthy negb].
      * assert (tool_history (trace (after w1 (tr ++ tr2)))
                = tool_history (trace (after w2 (tr ++ tr2)))) as H''.
        { rewrite !tool_history_after by (by apply Forall_app). by f_equal. }
        destruct (IH _ _ H'') as (ips3 & tr3 & -> & -> & Htr3).
        rewrite !after_after. eexists _, _. split_and!; try done.
        by repeat apply Forall_app_2.
      * eexists _, _. split_and!; try done. by apply Forall_app.
    + eexists _, _. split_and!; done.
Qed.

(** C6.  Each resolver step and the chain return a list and raise
    nothing, whatever the tools do; a tool that is absent and an
    invocation that raises (missing binary, non-zero status, timeout,
    undecodable output) give the empty list. *)
Theorem resolution_never_raises (dns : str) (servers : list str) (w : world) :
  let h := tool_history (trace w) in
  (∃ ips w', Update.resolve_with_dig e domain dns w = (Ret ips, w') ∧
     (which e h (lit "dig") = false → ips = []) ∧
     (∀ x, check_output e (h ++ [EvWhich (lit "dig")]) (dig_argv domain dns)
             = Raise x → ips = [])) ∧
  (∃ ips w', Update.resolve_with_nslookup e domain dns w = (Ret ips, w') ∧
     (which e h (lit "nslookup") = false → ips = []) ∧
     (∀ x, check_output e (h ++ [EvWhich (lit "nslookup")])
             (nslookup_argv domain dns) = Raise x → ips = [])) ∧
  (∃ ips w', Update.resolve_system e domain w = (Ret ips, w') ∧
     (∀ x, check_output e h (getent_argv domain) = Raise x → ips = [])) ∧
  (∃ ips w', Update.resolve_domain e domain servers w = (Ret ips, w')).
Proof.
  intros h. subst h. split_and!.
  - rewrite resolve_with_dig_run. cbv zeta.
    destruct (which e _ _); [destruct (check_output e _ _) as [out|x]|];
      eexists _, _; split_and!; try done.
  - rewrite resolve_with_nslookup_run. cbv zeta.
    destruct (which e _ _); [destruct (check_output e _ _) as [out|x]|];
      eexists _, _; split_and!; try done.
  - rewrite resolve_system_run.
    destruct (check_output e _ _) as [out|x]; eexists _, _; split_and!;
      try done.
  - destruct (tool_step_resolve_domain servers w w eq_refl)
      as (ips & tr & H & _).
    eauto.
Qed.

End Chain.

(** C2 (the code departs from it).  With no answer from the configured
    server, the chain returns what [getent] printed first on a line that
    holds a dot: an IPv4-mapped address passes, colons and all. *)
Theorem fallback_lets_a_colon_through :
  ∃ w', Update.resolve_domain Demo.mapped_env (lit "api.steampowered.com")
          [lit "8.8.8.8"] Demo.world0
        = (Ret [lit "::ffff:1.2.3.4"], w') ∧
        char_in COLON (lit "::ffff:1.2.3.4") = true.
Proof. eexists. split; by vm_compute. Qed.

(** ** The filter of the updater *)

Section Filter.

Import Update.

Lemma filter_loop_cons (line : str) (rest filtered : list str) (removed : nat) :
  filter_loop (line :: rest) filtered removed =
    if dropped line then filter_loop rest filtered (S removed)
    else filter_loop rest (filtered ++ [line]) removed.
Proof.
  unfold dropped. cbn [filter_loop].
  by destruct (truthy (strip line)), (startswith (strip line) (lit "#")),
    (is_steam (strip line)).
Qed.

(** The loop keeps the lines that are not [dropped], in their order, and
    counts the others. *)
Lemma filter_loop_spec (lines filtered : list str) (removed : nat) :
  filter_loop lines filtered removed =
    (filtered ++ filter (fun l => negb (dropped l)) lines,
     (removed + length (filter (fun l => dropped l) lines))%nat).
Proof.
  revert filtered removed.
  induction lines as [|line lines IH]; intros filtered removed.
  - simpl. by rewrite app_nil_r, Nat.add_0_r.
  - rewrite filter_loop_cons, !filter_cons.
    destruct (dropped line) eqn:E; simpl; rewrite IH.
    + f_equal. lia.
    + by rewrite <- app_assoc.
Qed.

Lemma filter_lines_spec (lines : list str) :
  filter_lines lines =
    (filter (fun l => negb (dropped l)) lines,
     length (filter (fun l => dropped l) lines)).
Proof. unfold filter_lines. by rewrite filter_loop_spec. Qed.


(** What makes the filter drop a line: it is neither blank nor a comment,
    and some managed domain stands at its start or right after a space
    (U+0020).  Nothing is asked of what follows the domain. *)
Lemma dropped_iff (line : str) :
  dropped line = true ↔
    strip line ≠ [] ∧ startswith (strip line) (lit "#") = false ∧
    ∃ d, d ∈ STEAM_DOMAINS ∧
         ∃ l r, [SPACE] ++ strip line ++ [SPACE] = l ++ ([SPACE] ++ d) ++ r.
Proof.
  unfold dropped, is_steam.
  rewrite !andb_true_iff, negb_true_iff, existsb_exists.
  split.
  - intros [[Ht Hs] (d & Hd & Hin)]. split_and!; [by destruct (strip line)|done|].
    exists d. split; [by apply list_elem_of_In|].
    by apply str_in_spec in Hin.
  - intros (Ht & Hs & d & Hd & Hin). split_and!; [by destruct (strip line)|done|].
    exists d. split; [by apply list_elem_of_In|].
    by apply str_in_spec.
Qed.

Lemma managed_domains_plain :
  Forall (fun d => d ≠ [] ∧ (SPACE ∉ d) ∧ (TAB ∉ d)) STEAM_DOMAINS.
Proof. apply (bool_decide_unpack _). by vm_compute. Qed.

Lemma strip_unpadded (s : str) (c : char) (t : str) :
  s = c :: t → is_space c = false → ∃ r, s = strip s ++ r.
Proof.
  intros -> Hc. unfold strip. cbn [lstrip]. rewrite Hc.
  apply rstrip_prefix.
Qed.

(** X6.  The entry line the updater writes for an address and a managed
    domain is not dropped by its own filter, as long as the address holds
    no space and does not itself begin with a managed domain. *)
Lemma generated_entry_kept (ip d : str) :
  d ∈ STEAM_DOMAINS →
  (∃ c t, ip = c :: t ∧ is_space c = false) →
  SPACE ∉ ip →
  (∀ d', d' ∈ STEAM_DOMAINS → startswith ip d' = false) →
  dropped (ip ++ [TAB] ++ d) = false.
Proof.
  intros Hd (c & t & Hip & Hc) Hsp Hpre.
  pose proof managed_domains_plain as Hplain. rewrite Forall_forall in Hplain.
  destruct (dropped _) eqn:E; [exfalso|done].
  apply dropped_iff in E as (_ & _ & d' & Hd' & l & r & Heq).
  destruct (Hplain d Hd) as (_ & Hd_sp & _).
  destruct (Hplain d' Hd') as (Hd'_ne & Hd'_sp & Hd'_tab).
  specialize (Hpre d' Hd').
  set (line := ip ++ [TAB] ++ d) in *.
  destruct (strip_unpadded line c (t ++ [TAB] ++ d)) as [r0 Hline];
    [unfold line; by rewrite Hip|done|].
  assert (SPACE ∉ strip line) as Hnosp.
  { intros H%strip_subseteq. unfold line in H.
    rewrite !elem_of_app, list_elem_of_singleton in H.
    destruct H as [?|[?|?]]; done. }
  assert (∀ l0, strip line ≠ d' ++ l0) as Hnopre.
  { intros l0 H. rewrite H in Hline. unfold line in Hline.
    rewrite <- app_assoc in Hline.
    apply app_eq_app in Hline as [l1 [[H1 H2]|[H1 H2]]].
    - assert (startswith ip d' = true) by (apply startswith_app; eauto).
      congruence.
    - destruct l1 as [|x l1].
      + rewrite app_nil_r in H1. subst d'.
        assert (startswith ip ip = true)
          by (apply startswith_app; exists []; by rewrite app_nil_r).
        congruence.
      + injection H2 as <- _. apply Hd'_tab. rewrite H1.
        apply elem_of_app. right. left. }
  destruct l as [|x l]; cbn [app] in Heq;
    [injection Heq as Heq|injection Heq as _ Heq].
  - apply app_eq_app in Heq as [l0 [[H1 H2]|[H1 H2]]].
    + by apply (Hnopre l0).
    + destruct l0 as [|y l0].
      * apply (Hnopre []). by rewrite app_nil_r in *.
      * injection H2 as <- _. apply Hd'_sp. rewrite H1.
        apply elem_of_app. right. left.
  - apply app_eq_app in Heq as [l0 [[H1 H2]|[H1 H2]]].
    + destruct l0 as [|y l0].
      * injection H2 as H2. by destruct d'.
      * injection H2 as <- _. apply Hnosp. rewrite H1.
        apply elem_of_app. right. left.
    + destruct l0 as [|y l0].
      * injection H2 as H2. by destruct d'.
      * injection H2 as _ H2. by destruct l0.
Qed.

(** C8.  A line that is blank, or whose stripped content starts with the
    comment sign, stays where it is in the output of the filter, as it
    is, and is not counted as removed, whatever its text. *)
Theorem comments_and_blanks_pass (content : str) (pre post : list str)
  (line : str) :
  splitlines content = pre ++ line :: post →
  strip line = [] ∨ startswith (strip line) (lit "#") = true →
  filter_hosts content =
    ((filter_lines pre).1 ++ line :: (filter_lines post).1,
     ((filter_lines pre).2 + (filter_lines post).2)%nat).
Proof.
  intros Hlines Hline.
  assert (dropped line = false) as Hkeep.
  { unfold dropped. destruct Hline as [-> | ->]; [done|].
    by rewrite andb_false_r. }
  unfold filter_hosts. fold (filter_lines (splitlines content)).
  rewrite Hlines, !filter_lines_spec. simpl.
  rewrite !filter_app, !filter_cons, Hkeep. simpl.
  by rewrite length_app.
Qed.

Lemma comments_and_blanks_pass_witness :
  filter_hosts Demo.commented_hosts = ([lit "# steamcommunity.com"], 1%nat).
Proof.
  apply (comments_and_blanks_pass Demo.commented_hosts []
           [lit "1.2.3.4 steamcommunity.com"] (lit "# steamcommunity.com")).
  - by vm_compute.
  - right. by vm_compute.
Defined.

(** C1 (the code departs from it).  A line that names a managed domain
    after a tab holds the domain as a token and is kept; a line with a
    longer name that merely begins with a managed domain holds no such
    token and is dropped. *)
Theorem filter_is_not_a_token_match :
  has_domain_token Demo.tab_line = true ∧
  filter_hosts Demo.tab_line = ([Demo.tab_line], 0%nat) ∧
  has_domain_token Demo.longer_name_line = false ∧
  filter_hosts Demo.longer_name_line = ([], 1%nat).
Proof. by vm_compute. Qed.

(** C3 (the code departs from it).  The filter keeps the entry line the
    updater itself generates, so each further run adds the managed
    entries once more: after two runs the hosts file holds the generated
    line twice, after three runs three times. *)
Theorem second_run_keeps_generated_entries :
  dropped Demo.entry_line = false ∧
  filter_lines [Demo.entry_line] = ([Demo.entry_line], 0%nat) ∧
  length (filter (fun l => l = Demo.entry_line) (Demo.hosts_lines_after 1))
    = 1%nat ∧
  length (filter (fun l => l = Demo.entry_line) (Demo.hosts_lines_after 2))
    = 2%nat ∧
  length (filter (fun l => l = Demo.entry_line) (Demo.hosts_lines_after 3))
    = 3%nat.
Proof. by vm_compute. Qed.

End Filter.

(** ** The updater as a whole *)

Section Main.

Import Update.

Context (e : env).

Lemma print_all_run (lines : list str) (w : world) :
  print_all lines w = (Ret tt, after w (map EvOut lines)).
Proof.
  revert w. induction lines as [|line lines IH]; intros w.
  - by rewrite after_nil.
  - cbn [print_all]. unfold mbind, M_bind, bind, Prim.print.
    by rewrite log_after, IH, after_after.
Qed.

Lemma collect_entries_cons (servers : list str) (domain : str)
  (rest acc : list str) (w : world) :
  collect_entries e servers (domain :: rest) acc w =
    match resolve_domain e domain servers w with
    | (Ret ips, w1) =>
        if negb (truthy ips) then
          collect_entries e servers rest acc
            (after w1 [EvOut (lit "[WARN] failed to resolve " ++ domain
                              ++ lit " via DNS " ++ join (lit ", ") servers)])
        else collect_entries e servers rest (acc ++ entries_of domain ips) w1
    | (Raise x, w1) => (Raise x, w1)
    end.
Proof.
  cbn [collect_entries]. unfold mbind, M_bind, bind, Prim.print.
  destruct (resolve_domain e domain servers w) as [[ips|x] w1]; [|done].
  by destruct ips.
Qed.

Lemma resolve_all_cons (servers : list str) (domain : str)
  (rest : list str) (w : world) :
  resolve_all e servers (domain :: rest) w =
    match resolve_domain e domain servers w with
    | (Ret ips, w1) =>
        match resolve_all e servers rest w1 with
        | (Ret more, w2) => (Ret (ips :: more), w2)
        | (Raise x, w2) => (Raise x, w2)
        end
    | (Raise x, w1) => (Raise x, w1)
    end.
Proof.
  cbn [resolve_all]. unfold mbind, M_bind, bind.
  destruct (resolve_domain e domain servers w) as [[ips|x] w1]; [|done].
  by destruct (resolve_all e servers rest w1) as [[more|x] w2].
Qed.

Lemma tool_is_no_write (tr : list event) :
  Forall (fun ev => is_tool ev = true) tr →
  Forall (fun ev => is_write ev = false) tr.
Proof. intros H. eapply Forall_impl; [done|]. by intros []. Qed.

Lemma tool_history_quiet (w : world) (tr : list event) :
  tool_history tr = [] →
  tool_history (trace (after w tr)) = tool_history (trace w).
Proof. intros H. simpl. by rewrite tool_history_app, H, app_nil_r. Qed.

(** The loop of [main] over the domains resolves them as [resolve_all]
    does, and turns each address into one entry line. *)
Lemma collect_entries_run (servers domains acc : list str) (w1 w2 : world) :
  tool_history (trace w1) = tool_history (trace w2) →
  ∃ rs tr w2',
    resolve_all e servers domains w2 = (Ret rs, w2') ∧
    collect_entries e servers domains acc w1 =
      (Ret (acc ++ concat (zip_with entries_of domains rs)), after w1 tr) ∧
    Forall (fun ev => is_write ev = false) tr.
Proof.
  revert acc w1 w2.
  induction domains as [|domain rest IH]; intros acc w1 w2 H.
  - exists [], [], w2. simpl. by rewrite app_nil_r, after_nil.
  - destruct (tool_step_resolve_domain e domain servers w1 w2 H)
      as (ips & tr & H1 & H2 & Htr).
    rewrite collect_entries_cons, resolve_all_cons, H1, H2.
    assert (tool_history (trace (after w1 tr))
            = tool_history (trace (after w2 tr))) as H'.
    { rewrite !tool_history_after by done. by f_equal. }
    destruct ips as [|ip ips]; cbn [truthy negb].
    + rewrite after_after.
      set (warn := EvOut (lit "[WARN] failed to resolve " ++ domain
                          ++ lit " via DNS " ++ join (lit ", ") servers)).
      destruct (IH acc (after w1 (tr ++ [warn])) (after w2 tr))
        as (rs & tr' & w2' & -> & -> & Htr').
      { rewrite <- after_after, tool_history_quiet; done. }
      rewrite after_after. exists ([] :: rs), ((tr ++ [warn]) ++ tr'), w2'.
      split_and!; try done.
      apply Forall_app. split; [|done].
      apply Forall_app. split; [by apply tool_is_no_write|].
      by repeat constructor.
    + edestruct (IH (acc ++ entries_of domain (ip :: ips)) _ _ H')
        as (rs & tr' & w2' & -> & -> & Htr').
      rewrite after_after. exists ((ip :: ips) :: rs), (tr ++ tr'), w2'.
      split_and!; try done.
      * cbn [zip_with concat]. by rewrite app_assoc.
      * apply Forall_app. split; [by apply tool_is_no_write|done].
Qed.

Lemma no_entries (domains : list str) (rs : list (list str)) :
  Forall (fun ips => ips = []) rs →
  concat (zip_with entries_of domains rs) = [].
Proof.
  intros H. revert domains.
  induction H as [|ips rs -> _ IH]; intros [|d domains]; simpl; auto.
Qed.

(** One run of [main] on an existing hosts file. *)
Lemma main_run (a : args) (w : world) (data : list byte) :
  fs w !! hosts_path a = Some data →
  let w1 := backed_up e a data w in
  ∃ rs w_r entries tr,
    resolve_all e (parse_dns (dns_servers a)) STEAM_DOMAINS w = (Ret rs, w_r) ∧
    entries = concat (zip_with entries_of STEAM_DOMAINS rs) ∧
    collect_entries e (parse_dns (dns_servers a)) STEAM_DOMAINS [] w1
      = (Ret entries, after w1 tr) ∧
    Forall (fun ev => is_write ev = false) tr ∧
    main e a w =
      if dry_run a then
        (Ret 0%Z,
         after w1 (tr ++ EvOut (lit "[INFO] dry-run enabled. Proposed entries:")
                      :: map EvOut entries))
      else
        (Ret 0%Z,
         {| fs := <[hosts_path a := encode e (new_text e a data entries)]>
                    (fs w1);
            trace := trace w1 ++ tr
                     ++ [EvWrite (hosts_path a)
                           (encode e (new_text e a data entries));
                         EvOut (lit "[INFO] hosts updated: "
                                ++ hosts_path a)] |}).
Proof.
  intros Hdata w1.
  assert (tool_history (trace w1) = tool_history (trace w)) as Hh.
  { unfold w1, backed_up. simpl. by rewrite tool_history_app, app_nil_r. }
  destruct (collect_entries_run (parse_dns (dns_servers a)) STEAM_DOMAINS []
              w1 w Hh) as (rs & tr & w_r & Hr & Hc & Htr).
  exists rs, w_r, (concat (zip_with entries_of STEAM_DOMAINS rs)), tr.
  split_and!; try done.
  unfold main, mbind, M_bind, bind, Prim.exists_, Prim.mkdir, Prim.copy2,
    Prim.print, Prim.read_text, Prim.write_text.
  rewrite bool_decide_true by (by rewrite Hdata). cbn [negb].
  cbn [log fs trace]. rewrite Hdata.
  cbn [log fs trace].
  assert ((<[Prim.path_join (backup_dir a)
               (lit "hosts_" ++ Prim.strftime (now e) ++ lit ".bak") := data]>
             (fs w)) !! hosts_path a = Some data) as ->.
  { rewrite lookup_insert. by case_decide. }
  cbn [log fs trace].
  unfold filter_hosts in *.
  destruct (filter_loop (splitlines (decode e data)) [] 0)
    as [filtered removed] eqn:Hf.
  cbn [log fs trace].
  match goal with
  | |- context [collect_entries _ _ _ _ ?w0] => replace w0 with w1
  end.
  2: { unfold w1, backed_up, prelude, log, backup_path, filter_hosts.
       rewrite Hf. cbn [fs trace snd]. by rewrite <- !app_assoc. }
  rewrite Hc. destruct (dry_run a).
  - rewrite log_after, print_all_run, !after_after. done.
  - unfold ret, new_text, filter_hosts. rewrite Hf.
    rewrite log_after. unfold after. cbn [fs trace fst].
    by rewrite <- !app_assoc.
Qed.

(** C7.  A dry run on an existing hosts file returns 0 and leaves the
    bytes of the hosts file as they were: the one file it touches is the
    backup, it performs no write, and the last thing it prints is the
    notice followed by the proposed entries, one per line. *)
Theorem dry_run_leaves_hosts_untouched (a : args) (w : world)
  (data : list byte) :
  dry_run a = true →
  fs w !! hosts_path a = Some data →
  ∃ entries tr w1 w',
    main e a w = (Ret 0%Z, w') ∧
    fs w' !! hosts_path a = Some data ∧
    fs w' = <[backup_path e a := data]> (fs w) ∧
    collect_entries e (parse_dns (dns_servers a)) STEAM_DOMAINS []
      (backed_up e a data w) = (Ret entries, w1) ∧
    trace w' =
      trace w ++ tr
      ++ EvOut (lit "[INFO] dry-run enabled. Proposed entries:")
         :: map EvOut entries ∧
    Forall (fun ev => is_write ev = false)
      (tr ++ EvOut (lit "[INFO] dry-run enabled. Proposed entries:")
          :: map EvOut entries).
Proof.
  intros Hdry Hdata.
  destruct (main_run a w data Hdata)
    as (rs & w_r & entries & tr & _ & _ & Hc & Htr & Hmain).
  rewrite Hdry in Hmain.
  exists entries, (prelude e a data ++ tr). eexists _, _.
  split_and!; [exact Hmain|..|exact Hc| |].
  - simpl. rewrite lookup_insert. by case_decide.
  - done.
  - simpl. by rewrite <- !app_assoc.
  - rewrite <- app_assoc. apply Forall_app_2; [by repeat constructor|].
    apply Forall_app_2; [done|]. constructor; [done|].
    apply Forall_forall. by intros ev [line [-> _]]%list_elem_of_fmap.
Qed.

(** C9.  On an existing hosts file, in either mode, the first effects of
    a run are the making of the backup directory and the copy of the
    hosts file to [hosts_<timestamp>.bak] inside it; after a dry run the
    file system differs from the one before in that backup alone. *)
Theorem backup_is_made_in_either_mode (a : args) (w : world)
  (data : list byte) :
  fs w !! hosts_path a = Some data →
  ∃ code w' tr,
    main e a w = (Ret code, w') ∧
    backup_path e a =
      Prim.path_join (backup_dir a)
        (lit "hosts_" ++ Prim.strftime (now e) ++ lit ".bak") ∧
    trace w' =
      trace w ++ EvMkdir (backup_dir a)
              :: EvCopy (hosts_path a) (backup_path e a) :: tr ∧
    (dry_run a = true → fs w' = <[backup_path e a := data]> (fs w)) ∧
    (dry_run a = true ∨ backup_path e a ≠ hosts_path a →
     fs w' !! backup_path e a = Some data).
Proof.
  intros Hdata.
  destruct (main_run a w data Hdata)
    as (rs & w_r & entries & tr & _ & _ & _ & _ & Hmain).
  destruct (dry_run a) eqn:Hdry; rewrite Hmain; eexists _, _, _;
    (split_and!; [reflexivity|reflexivity|..]).
  - simpl. rewrite <- !app_assoc. reflexivity.
  - done.
  - intros _. simpl. by rewrite lookup_insert_eq.
  - simpl. rewrite <- !app_assoc. reflexivity.
  - done.
  - intros [?|Hne]; [done|]. simpl.
    rewrite lookup_insert_ne by done. by rewrite lookup_insert_eq.
Qed.

(** C10.  When every managed domain resolves to nothing, a run that is
    not a dry run returns 0 and writes the kept lines, then the header
    line, then at once the footer line. *)
Theorem empty_block_when_nothing_resolves (a : args) (w : world)
  (data : list byte) (rs : list (list str)) (w_r : world) :
  dry_run a = false →
  fs w !! hosts_path a = Some data →
  resolve_all e (parse_dns (dns_servers a)) STEAM_DOMAINS w = (Ret rs, w_r) →
  Forall (fun ips => ips = []) rs →
  ∃ w',
    main e a w = (Ret 0%Z, w') ∧
    let text :=
      join [LF] ((filter_hosts (decode e data)).1
                 ++ [header (Prim.strftime (now e)); footer]) ++ [LF] in
    fs w' !! hosts_path a = Some (encode e text) ∧
    EvWrite (hosts_path a) (encode e text) ∈ trace w'.
Proof.
  intros Hdry Hdata Hr Hrs.
  destruct (main_run a w data Hdata)
    as (rs' & w_r' & entries & tr & Hr' & -> & _ & _ & Hmain).
  rewrite Hr in Hr'. injection Hr' as <- <-.
  rewrite (no_entries _ _ Hrs) in Hmain. rewrite Hdry in Hmain.
  eexists. split; [exact Hmain|]. cbv zeta. split.
  - simpl. by rewrite lookup_insert_eq.
  - simpl. rewrite !elem_of_app. right. right. left.
Qed.

End Main.

Section MainWitnesses.

Import Update.

Lemma dry_run_leaves_hosts_untouched_witness :
  ∃ entries tr w1 w',
    main Demo.dig_env (Demo.args0 true) Demo.world0 = (Ret 0%Z, w') ∧
    fs w' !! Demo.etc_hosts = Some (Demo.bytes_of "127.0.0.1 localhost") ∧
    fs w' = <[backup_path Demo.dig_env (Demo.args0 true)
                := Demo.bytes_of "127.0.0.1 localhost"]> (fs Demo.world0) ∧
    collect_entries Demo.dig_env (parse_dns (lit "8.8.8.8,1.1.1.1"))
      STEAM_DOMAINS []
      (backed_up Demo.dig_env (Demo.args0 true)
         (Demo.bytes_of "127.0.0.1 localhost") Demo.world0)
      = (Ret entries, w1) ∧
    trace w' =
      trace Demo.world0 ++ tr
      ++ EvOut (lit "[INFO] dry-run enabled. Proposed entries:")
         :: map EvOut entries ∧
    Forall (fun ev => is_write ev = false)
      (tr ++ EvOut (lit "[INFO] dry-run enabled. Proposed entries:")
          :: map EvOut entries).
Proof.
  apply (dry_run_leaves_hosts_untouched Demo.dig_env (Demo.args0 true)
           Demo.world0 (Demo.bytes_of "127.0.0.1 localhost")).
  - reflexivity.
  - by vm_compute.
Defined.

Lemma backup_is_made_in_either_mode_witness :
  ∃ code w' tr,
    main Demo.dig_env (Demo.args0 true) Demo.world0 = (Ret code, w') ∧
    backup_path Demo.dig_env (Demo.args0 true) =
      Prim.path_join (lit "./hosts_backup")
        (lit "hosts_" ++ Prim.strftime Demo.noon ++ lit ".bak") ∧
    trace w' =
      trace Demo.world0
      ++ EvMkdir (lit "./hosts_backup")
         :: EvCopy Demo.etc_hosts (backup_path Demo.dig_env (Demo.args0 true))
         :: tr ∧
    (true = true →
     fs w' = <[backup_path Demo.dig_env (Demo.args0 true)
                 := Demo.bytes_of "127.0.0.1 localhost"]> (fs Demo.world0)) ∧
    (true = true
     ∨ backup_path Demo.dig_env (Demo.args0 true) ≠ Demo.etc_hosts →
     fs w' !! backup_path Demo.dig_env (Demo.args0 true)
       = Some (Demo.bytes_of "127.0.0.1 localhost")).
Proof.
  apply (backup_is_made_in_either_mode Demo.dig_env (Demo.args0 true)
           Demo.world0 (Demo.bytes_of "127.0.0.1 localhost")).
  by vm_compute.
Defined.

Lemma empty_block_when_nothing_resolves_witness :
  ∃ w',
    main Demo.bare_env (Demo.args0 false) Demo.world0 = (Ret 0%Z, w') ∧
    let text :=
      join [LF]
        ((filter_hosts
            (decode Demo.bare_env (Demo.bytes_of "127.0.0.1 localhost"))).1
         ++ [header (Prim.strftime (now Demo.bare_env)); footer]) ++ [LF] in
    fs w' !! hosts_path (Demo.args0 false)
      = Some (encode Demo.bare_env text) ∧
    EvWrite (hosts_path (Demo.args0 false)) (encode Demo.bare_env text)
      ∈ trace w'.
Proof.
  apply (empty_block_when_nothing_resolves Demo.bare_env (Demo.args0 false)
           Demo.world0 (Demo.bytes_of "127.0.0.1 localhost")
           [[]; []; []; []; []; []; []]
           (resolve_all Demo.bare_env (parse_dns (lit "8.8.8.8,1.1.1.1"))
              STEAM_DOMAINS Demo.world0).2).
  - reflexivity.
  - by vm_compute.
  - by vm_compute.
  - by repeat constructor.
Defined.

End MainWitnesses.

(** ** The verifier *)

Section Verifier.

Import Verify.

Context (e : env).

Lemma assign_all_nonempty (ip : str) (domains : list str)
  (mapping : gmap str str) :
  ip ≠ [] →
  map_Forall (fun _ v => v ≠ []) mapping →
  map_Forall (fun _ v => v ≠ []) (assign_all ip domains mapping).
Proof.
  intros Hip. revert mapping. unfold assign_all.
  induction domains as [|d domains IH]; intros mapping Hm; simpl; [done|].
  apply IH. by apply map_Forall_insert_2.
Qed.

(** No domain is mapped to an empty address. *)
Lemma parse_loop_nonempty (lines : list str) (mapping : gmap str str) :
  map_Forall (fun _ v => v ≠ []) mapping →
  map_Forall (fun _ v => v ≠ []) (parse_loop lines mapping).
Proof.
  revert mapping. induction lines as [|line lines IH]; intros mapping Hm;
    cbn [parse_loop]; [done|]. cbv zeta.
  destruct (negb (truthy (strip line)) || startswith (strip line) (lit "#"));
    [by apply IH|].
  destruct (split (strip line)) as [|ip domains] eqn:Hs.
  - destruct (length [] <? 2)%nat; by apply IH.
  - destruct (length (ip :: domains) <? 2)%nat; [by apply IH|].
    apply IH, assign_all_nonempty; [|done].
    apply (split_nonempty (strip line)). rewrite Hs. left.
Qed.

Lemma parse_content_nonempty (content domain : str) :
  parse_content content !! domain ≠ Some [].
Proof.
  intros H.
  by apply (parse_loop_nonempty (splitlines content) ∅ (map_Forall_empty _))
    in H.
Qed.

(** The flag of the loop stays up exactly when every domain is [good]. *)
Lemma check_loop_run (hosts_map : gmap str str) (domains : list str)
  (ok : bool) (w : world) :
  ∃ tr, check_loop e hosts_map domains ok w
        = (Ret (ok && forallb (good e hosts_map) domains), after w tr).
Proof.
  revert ok w. induction domains as [|d domains IH]; intros ok w.
  - exists []. cbn. by rewrite andb_true_r, after_nil.
  - cbn [check_loop forallb]. cbv zeta. unfold good at 1.
    destruct (hosts_map !! d) as [ip|].
    + destruct ip as [|c ip]; cbn [truthy negb andb].
      * unfold mbind, M_bind, bind, Prim.print. rewrite log_after.
        destruct (IH false (after w [EvOut (lit "[WARN] hosts missing: "
                                            ++ d)])) as [tr ->].
        rewrite after_after, andb_false_r. eauto.
      * destruct (bool_decide (c :: ip ∈ system_resolve e d)).
        -- unfold mbind, M_bind, bind, Prim.print. rewrite log_after.
           destruct (IH ok (after w [EvOut (lit "[OK] " ++ d ++ lit " -> "
                                            ++ c :: ip)])) as [tr ->].
           rewrite after_after. eauto.
        -- unfold mbind, M_bind, bind, Prim.print. rewrite log_after.
           match goal with
           | |- context [check_loop _ _ _ _ ?w0] =>
               destruct (IH false w0) as [tr ->]
           end.
           rewrite after_after, andb_false_r. eauto.
    + unfold mbind, M_bind, bind, Prim.print. rewrite log_after.
      destruct (IH false (after w [EvOut (lit "[WARN] hosts missing: "
                                          ++ d)])) as [tr ->].
      rewrite after_after, andb_false_r. eauto.
Qed.

Lemma good_iff (content domain : str) :
  good e (parse_content content) domain = true ↔
  ∃ ip, parse_content content !! domain = Some ip
        ∧ ip ∈ system_resolve e domain.
Proof.
  unfold good.
  destruct (parse_content content !! domain) as [ip|] eqn:Hm.
  - rewrite andb_true_iff, bool_decide_eq_true. split.
    + intros [_ Hin]. eauto.
    + intros (ip' & [= <-] & Hin). split; [|done].
      destruct ip; [|done]. by apply parse_content_nonempty in Hm.
  - split; [done|]. by intros (ip & ? & _).
Qed.

(** The addresses the verifier compares with hold no colon. *)
Lemma system_resolve_no_colon (domain : str) :
  Forall no_colon (system_resolve e domain).
Proof.
  unfold system_resolve. destruct (getaddrinfo e domain) as [infos|];
    [|constructor].
  apply Forall_forall. intros ip Hip.
  apply (proj1 (elem_of_sorted_set _ _)) in Hip.
  apply list_elem_of_filter in Hip as [Hip _].
  by apply Is_true_true, negb_true_iff in Hip.
Qed.

(** C5.  On an existing hosts file the verifier returns 0 or 2, and it
    returns 0 exactly when every managed domain is mapped by the parsed
    file to an address that is among the addresses the system resolver
    gives for that domain. *)
Theorem verifier_exit_code (a : args) (w : world) (data : list byte) :
  fs w !! hosts_path a = Some data →
  ∃ code w',
    main e a w = (Ret code, w') ∧
    (code = 0%Z ∨ code = 2%Z) ∧
    (code = 0%Z ↔
     ∀ domain, domain ∈ STEAM_DOMAINS →
       ∃ ip, parse_content (decode e data) !! domain = Some ip
             ∧ ip ∈ system_resolve e domain).
Proof.
  intros Hdata.
  unfold main, parse_hosts, Prim.exists_, Prim.read_text.
  unfold mbind, M_bind, bind.
  rewrite bool_decide_true by (by rewrite Hdata). cbn [negb]. cbv beta.
  rewrite Hdata. unfold ret.
  destruct (check_loop_run (parse_content (decode e data)) STEAM_DOMAINS true
              (log (EvRead (hosts_path a)) w)) as [tr ->].
  cbn [andb].
  eexists _, _. split; [reflexivity|].
  destruct (forallb _ _) eqn:Hall.
  - split; [by left|]. split; [|done]. intros _ domain Hd.
    rewrite forallb_forall in Hall.
    by apply good_iff, Hall, list_elem_of_In.
  - split; [by right|]. split; [done|]. intros H.
    assert (forallb (good e (parse_content (decode e data))) STEAM_DOMAINS
            = true) as Hall'; [|congruence].
    apply forallb_forall. intros domain Hd. apply good_iff, H.
    by apply list_elem_of_In.
Qed.

End Verifier.

Lemma verifier_exit_code_witness :
  ∃ code w',
    Verify.main Demo.named_env Demo.verify_args Demo.managed_world
      = (Ret code, w') ∧
    (code = 0%Z ∨ code = 2%Z) ∧
    (code = 0%Z ↔
     ∀ domain, domain ∈ Verify.STEAM_DOMAINS →
       ∃ ip, Verify.parse_content
               (decode Demo.named_env Demo.managed_hosts) !! domain = Some ip
             ∧ ip ∈ Verify.system_resolve Demo.named_env domain).
Proof.
  apply (verifier_exit_code Demo.named_env Demo.verify_args
           Demo.managed_world Demo.managed_hosts).
  by vm_compute.
Defined.

(** ** Lines, white space and line boundaries *)

Section LineFacts.

Lemma is_linebreak_space (c : char) :
  is_linebreak c = true → is_space c = true.
Proof.
  unfold is_linebreak, is_space.
  rewrite !orb_true_iff, !andb_true_iff, !N.leb_le, !N.eqb_eq. lia.
Qed.

Lemma no_space_no_break (s : str) : no_space s → no_break s.
Proof.
  intros H. eapply Forall_impl; [exact H|]. intros c Hc. cbv beta in *.
  destruct (is_linebreak c) eqn:E; [|done].
  apply is_linebreak_space in E. congruence.
Qed.

Lemma no_break_app (s t : str) : no_break s → no_break t → no_break (s ++ t).
Proof. apply Forall_app_2. Qed.

Lemma no_break_infix (l s r : str) : no_break (l ++ s ++ r) → no_break s.
Proof. intros H. by apply Forall_app in H as [_ [H _]%Forall_app]. Qed.

Lemma strip_no_break (s : str) : no_break s → no_break (strip s).
Proof.
  intros H. destruct (strip_infix s) as (l & r & Hs).
  rewrite Hs in H. by eapply no_break_infix.
Qed.

Lemma rstrip_rstrip (s : str) : rstrip (rstrip s) = rstrip s.
Proof.
  induction s as [|c s IH]; [done|]. cbn [rstrip].
  destruct (rstrip s) as [|a r] eqn:E.
  - destruct (is_space c) eqn:Ec; [done|]. cbn [rstrip]. by rewrite Ec.
  - cbn [rstrip]. cbn [rstrip] in IH. by rewrite IH.
Qed.

Lemma rstrip_keeps_head (c : char) (s : str) :
  is_space c = false → ∃ t, rstrip (c :: s) = c :: t.
Proof.
  intros Hc. cbn [rstrip]. destruct (rstrip s); [rewrite Hc|]; eauto.
Qed.

(** Stripping twice strips no more. *)
Lemma strip_strip (s : str) : strip (strip s) = strip s.
Proof.
  unfold strip. destruct (lstrip s) as [|c t] eqn:E; [done|].
  assert (is_space c = false) as Hc.
  { revert E. induction s as [|a s IH]; [done|]. cbn [lstrip].
    destruct (is_space a) eqn:Ea; [done|]. by intros [= <- _]. }
  destruct (rstrip_keeps_head c t Hc) as [u Hu]. unfold char in *.
  rewrite Hu.
  cbn [lstrip]. rewrite Hc, <- Hu. apply rstrip_rstrip.
Qed.

Lemma rstrip_no_space (s : str) : no_space s → rstrip s = s.
Proof.
  induction 1 as [|c s Hc _ IH]; [done|]. cbn [rstrip]. rewrite IH.
  destruct s; [by rewrite Hc|done].
Qed.

Lemma strip_no_space (s : str) : no_space s → strip s = s.
Proof.
  intros H. unfold strip.
  assert (lstrip s = s) as ->; [|by apply rstrip_no_space].
  destruct H as [|c s Hc _]; [done|]. cbn [lstrip]. by rewrite Hc.
Qed.

Lemma rstrip_snoc (s : str) (c : char) :
  is_space c = false → rstrip (s ++ [c]) = s ++ [c].
Proof.
  intros Hc. induction s as [|a s IH]; cbn [rstrip app].
  - by rewrite Hc.
  - rewrite IH. by destruct s.
Qed.

(** The pieces of [s.split()] hold no white space. *)
Lemma split_from_no_space (cur s : str) :
  no_space cur → Forall no_space (split_from cur s).
Proof.
  revert cur. induction s as [|c s IH]; intros cur Hcur; cbn [split_from].
  - destruct cur; [constructor|].
    constructor; [|constructor]. by apply Forall_rev.
  - destruct (is_space c) eqn:Ec.
    + destruct cur; [by apply IH|].
      constructor; [by apply Forall_rev|]. apply IH. constructor.
    + apply IH. by constructor.
Qed.

Lemma split_no_space (s piece : str) : piece ∈ split s → no_space piece.
Proof.
  intros H.
  pose proof (split_from_no_space [] s (Forall_nil_2 _)) as Hall.
  rewrite Forall_forall in Hall. by apply Hall.
Qed.

(** The lines of [s.splitlines()] hold no line boundary. *)
Lemma splitlines_from_no_break (n : nat) (cur s : str) :
  (length s ≤ n)%nat → no_break cur →
  Forall no_break (splitlines_from cur s).
Proof.
  revert cur s. induction n as [|n IH]; intros cur [|c s] Hn Hcur;
    cbn [splitlines_from]; try (simpl in Hn; lia).
  - destruct cur; repeat constructor. by apply Forall_rev.
  - destruct cur; repeat constructor. by apply Forall_rev.
  - simpl in Hn. destruct (is_linebreak c) eqn:Ec.
    + constructor; [by apply Forall_rev|].
      destruct (c =? CR); [|apply IH; [lia|constructor]].
      destruct s as [|c' s']; [apply IH; [simpl; lia|constructor]|].
      destruct (c' =? LF); apply IH; simpl in *; try lia; constructor.
    + apply IH; [lia|]. by constructor.
Qed.

Lemma splitlines_no_break (s line : str) :
  line ∈ splitlines s → no_break line.
Proof.
  intros H.
  pose proof (splitlines_from_no_break (length s) [] s (le_n _) (Forall_nil_2 _))
    as Hall.
  rewrite Forall_forall in Hall. by apply Hall.
Qed.

(** A line followed by a line feed is read back as that line. *)
Lemma splitlines_from_line (cur l rest : str) :
  no_break l →
  splitlines_from cur (l ++ LF :: rest)
  = (rev cur ++ l) :: splitlines_from [] rest.
Proof.
  intros Hl. revert cur. induction Hl as [|c l Hc _ IH]; intros cur.
  - cbn [app splitlines_from]. by rewrite app_nil_r.
  - cbn [app splitlines_from]. rewrite Hc, IH. cbn [rev].
    by rewrite <- app_assoc.
Qed.

(** Lines joined by line feeds, with one more line feed at the end, are
    read back as they were. *)
Lemma splitlines_join (lines : list str) :
  lines ≠ [] → Forall no_break lines →
  splitlines (join [LF] lines ++ [LF]) = lines.
Proof.
  intros Hne Hall. unfold splitlines.
  induction Hall as [|l lines Hl Hall IH]; [done|].
  destruct lines as [|l2 lines].
  - cbn [join]. by rewrite splitlines_from_line.
  - cbn [join]. rewrite <- !app_assoc. cbn [app].
    rewrite splitlines_from_line by done. cbn [rev app]. f_equal.
    apply IH. done.
Qed.

End LineFacts.

(** ** The shape of the addresses the resolvers return *)

Section Addresses.

Context (e : env).

Lemma sorted_set_Forall (P : str → Prop) (xs : list str) :
  Forall P xs → Forall P (sorted_set xs).
Proof.
  rewrite !Forall_forall. intros H x Hx.
  apply H. by apply (proj1 (elem_of_sorted_set _ _)).
Qed.

Lemma strip_tidy (line : str) :
  no_break line → strip line ≠ [] → tidy (strip line).
Proof.
  intros Hb Hne. split_and!; [done|apply strip_strip|by apply strip_no_break].
Qed.

Lemma dig_parse_tidy (out : str) : Forall tidy (dig_parse out).
Proof.
  unfold dig_parse. apply Forall_forall. intros ip Hip.
  apply list_elem_of_In, in_map_iff in Hip as (line & <- & Hline).
  apply list_elem_of_In, list_elem_of_filter in Hline as [Hline Hin].
  apply Is_true_true, andb_true_iff in Hline as [Hline _].
  apply strip_tidy; [by eapply splitlines_no_break|].
  by destruct (strip line).
Qed.

Lemma split1_from_second (sep : char) (cur s field : str) :
  split1_from sep cur s !! 1%nat = Some field → ∃ l, s = l ++ field.
Proof.
  revert cur. induction s as [|c s IH]; intros cur; cbn [split1_from].
  - done.
  - destruct (c =? sep).
    + intros [= <-]. by exists [c].
    + intros [l ->]%IH. by exists (c :: l).
Qed.

Lemma nslookup_loop_tidy (lines ips ips' : list str) :
  Forall no_break lines →
  Update.nslookup_loop lines ips = Ret ips' →
  Forall tidy ips → Forall tidy ips'.
Proof.
  intros Hlines. revert ips.
  induction Hlines as [|line lines Hline _ IH]; intros ips;
    cbn [Update.nslookup_loop].
  - by intros [= ->].
  - cbv zeta.
    destruct (startswith (lower (strip line)) (lit "address:")); [|apply IH].
    unfold Prim.index.
    destruct (split1 COLON (strip line) !! 1%nat) as [field|] eqn:Ef;
      cbn [obind]; [|done].
    destruct (Update.truthy (strip field)) eqn:Et; cbn [andb]; [|apply IH].
    destruct (negb (char_in COLON (strip field))); [|apply IH].
    intros H Hips. apply (IH _ H). apply Forall_app_2; [done|].
    constructor; [|constructor].
    apply strip_tidy; [|by destruct (strip field)].
    apply split1_from_second in Ef as [l Hl].
    apply strip_no_break in Hline. rewrite Hl in Hline.
    by apply Forall_app in Hline as [_ ?].
Qed.

Lemma nslookup_parse_tidy (out : str) :
  Forall tidy (nslookup_parse (splitlines out) []).
Proof.
  eapply nslookup_loop_tidy; [|apply nslookup_loop_parse|constructor].
  apply Forall_forall. intros line. apply splitlines_no_break.
Qed.

(** What the loop over the [getent] output collects: first fields that
    hold a dot. *)
Lemma getent_loop_fields (lines ips : list str) :
  Forall (fun ip => ip ≠ [] ∧ no_space ip ∧ DOT ∈ ip) ips →
  Forall (fun ip => ip ≠ [] ∧ no_space ip ∧ DOT ∈ ip)
    (Update.getent_loop lines ips).
Proof.
  revert ips. induction lines as [|line lines IH]; intros ips Hips;
    cbn [Update.getent_loop]; [done|].
  destruct (split line) as [|p0 rest] eqn:Es; [by apply IH|].
  destruct (char_in DOT p0) eqn:Ed; [|by apply IH].
  apply IH, Forall_app_2; [done|]. constructor; [|constructor].
  assert (p0 ∈ split line) as Hin by (rewrite Es; left).
  split_and!.
  - by eapply split_nonempty.
  - by eapply split_no_space.
  - by apply char_in_spec.
Qed.

Lemma field_tidy (ip : str) : ip ≠ [] → no_space ip → tidy ip.
Proof.
  intros Hne Hs. split_and!;
    [done|by apply strip_no_space|by apply no_space_no_break].
Qed.

(** Whatever the chain returns is [sorted(set(xs))] of tidy addresses. *)
Lemma resolve_domain_form (domain : str) (servers : list str)
  (w w' : world) (ips : list str) :
  Update.resolve_domain e domain servers w = (Ret ips, w') →
  ∃ xs, ips = sorted_set xs ∧ Forall tidy xs.
Proof.
  revert w. induction servers as [|dns rest IH]; intros w.
  - rewrite resolve_domain_nil, resolve_system_run.
    destruct (check_output e _ _) as [out|x]; intros [= <- _].
    + eexists. split; [done|]. apply sorted_set_Forall.
      eapply Forall_impl; [apply getent_loop_fields; constructor|].
      intros ip (? & ? & _). by apply field_tidy.
    + exists []. split; [done|constructor].
  - rewrite resolve_domain_cons, resolve_with_dig_run. cbv zeta.
    assert (∀ w1,
      match Update.resolve_with_nslookup e domain dns w1 with
      | (Ret ips', w2) =>
          if Update.truthy ips' then (Ret (sorted_set ips'), w2)
          else Update.resolve_domain e domain rest w2
      | (Raise x, w2) => (Raise x, w2)
      end = (Ret ips, w') → ∃ xs, ips = sorted_set xs ∧ Forall tidy xs)
      as Hns.
    { intros w1. rewrite resolve_with_nslookup_run. cbv zeta.
      destruct (which e _ _); [destruct (check_output e _ _) as [out|x]|];
        cbn [Update.truthy]; try apply IH.
      destruct (Update.truthy _); [|apply IH].
      intros [= <- _]. eauto using nslookup_parse_tidy. }
    destruct (which e _ _); [destruct (check_output e _ _) as [out|x]|];
      cbn [Update.truthy negb]; try apply Hns.
    destruct (dig_parse out) as [|ip0 ips0] eqn:Ed; cbn [Update.truthy negb];
      [apply Hns|].
    intros [= <- _]. exists (ip0 :: ips0). split; [done|].
    rewrite <- Ed. apply dig_parse_tidy.
Qed.

End Addresses.

(** X1.  The chain always returns, and what it returns is in ascending
    order, without repetition, and made of addresses that are not empty,
    carry no white space at either end and hold no line boundary. *)
Theorem chain_results_well_formed (e : env) (domain : str)
  (servers : list str) (w : world) :
  ∃ ips w',
    Update.resolve_domain e domain servers w = (Ret ips, w') ∧
    Sorted str_le ips ∧ NoDup ips ∧ Forall tidy ips.
Proof.
  destruct (tool_step_resolve_domain e domain servers w w eq_refl)
    as (ips & tr & H & _).
  destruct (resolve_domain_form e _ _ _ _ _ H) as (xs & -> & Hxs).
  eexists _, _. split; [exact H|]. split_and!.
  - apply sorted_set_sorted.
  - apply sorted_set_nodup.
  - by apply sorted_set_Forall.
Qed.

(** X2.  The system-resolver step always returns; its addresses are in
    ascending order without repetition, each is the first field of a line
    of the [getent] output, free of white space and holding a dot; a
    failed invocation gives the empty list. *)
Theorem fallback_addresses (e : env) (domain : str) (w : world) :
  ∃ ips w',
    Update.resolve_system e domain w = (Ret ips, w') ∧
    Sorted str_le ips ∧ NoDup ips ∧
    Forall (fun ip => ip ≠ [] ∧ no_space ip ∧ DOT ∈ ip) ips ∧
    (∀ out, check_output e (tool_history (trace w)) (getent_argv domain)
              = Ret out →
       ∀ ip, ip ∈ ips ↔
             ∃ line rest, line ∈ splitlines out
                          ∧ split line = ip :: rest ∧ DOT ∈ ip) ∧
    (∀ x, check_output e (tool_history (trace w)) (getent_argv domain)
            = Raise x → ips = []).
Proof.
  rewrite resolve_system_run.
  destruct (check_output e _ _) as [out|x]; eexists _, _;
    (split; [reflexivity|]).
  - split_and!; [apply sorted_set_sorted|apply sorted_set_nodup| | |done].
    + apply sorted_set_Forall, getent_loop_fields. constructor.
    + intros out' [= <-] ip. rewrite elem_of_sorted_set.
      assert (∀ lines acc,
        ip ∈ Update.getent_loop lines acc ↔
        ip ∈ acc ∨ ∃ line rest, line ∈ lines ∧ split line = ip :: rest
                               ∧ DOT ∈ ip) as Hloop.
      { induction lines as [|line lines IH]; intros acc;
          cbn [Update.getent_loop].
        - split; [by left|]. intros [?|(l & ? & []%elem_of_nil & _)]. done.
        - destruct (split line) as [|p0 rest] eqn:Es.
          + rewrite IH. split; intros [?|(l & r & Hl & Hs & Hd)]; auto.
            * right. exists l, r. split; [by right|done].
            * apply elem_of_cons in Hl as [->|Hl]; [congruence|].
              right. eauto.
          + destruct (char_in DOT p0) eqn:Ed.
            * rewrite IH, elem_of_app, list_elem_of_singleton.
              split; intros [H|(l & r & Hl & Hs & Hd)].
              -- destruct H as [?| ->]; [by left|]. right.
                 exists line, rest. split_and!; [left|done|].
                 by apply char_in_spec.
              -- right. exists l, r. split; [by right|done].
              -- by left; left.
              -- apply elem_of_cons in Hl as [->|Hl].
                 ++ left. right. congruence.
                 ++ right. eauto.
            * rewrite IH. split; intros [?|(l & r & Hl & Hs & Hd)]; auto.
              -- right. exists l, r. split; [by right|done].
              -- apply elem_of_cons in Hl as [->|Hl]; [|right; eauto].
                 rewrite Es in Hs. injection Hs as -> _.
                 apply char_in_spec in Hd. congruence. }
      rewrite Hloop. split; [intros [[]%elem_of_nil|?]; done|by right].
  - split_and!; [constructor|constructor|constructor|done|done].
Qed.

(** ** More on the filter of the updater *)

Section FilterMore.

Import Update.

Lemma managed_domains_no_space :
  Forall (fun d => d ≠ [] ∧ no_space d) STEAM_DOMAINS.
Proof. apply (bool_decide_unpack _). by vm_compute. Qed.

Lemma rstrip_app_no_space (s t : str) :
  t ≠ [] → no_space t → rstrip (s ++ t) = s ++ t.
Proof.
  intros Hne Ht. induction s as [|a s IH]; cbn [app].
  - by apply rstrip_no_space.
  - cbn [rstrip]. rewrite IH. destruct s, t; done.
Qed.

Lemma comment_not_dropped (t : str) : dropped (35 :: t) = false.
Proof.
  assert (∃ u, strip (35 :: t) = 35 :: u) as [u Hu].
  { unfold strip. cbn [lstrip]. change (is_space 35) with false. cbv iota.
    by apply rstrip_keeps_head. }
  unfold dropped. cbv zeta. rewrite Hu.
  assert (startswith (35 :: u) (lit "#") = true) as ->.
  { apply startswith_app. by exists u. }
  by rewrite andb_false_r.
Qed.


(** X4.  Filtering what the filter kept removes nothing more. *)
Theorem filter_idempotent (lines : list str) :
  filter_lines (filter_lines lines).1 = ((filter_lines lines).1, 0%nat).
Proof.
  rewrite !filter_lines_spec. cbn [fst].
  induction lines as [|line lines IH]; [done|].
  injection IH as IH1 IH2.
  rewrite filter_cons. destruct (dropped line) eqn:E; simpl.
  - by rewrite IH1, IH2.
  - rewrite !filter_cons, E. simpl. by rewrite IH1, IH2.
Qed.

(** X5.  An entry written as address, one space, managed domain is
    dropped by the filter, whatever the address, as long as the address
    starts with neither white space nor the comment sign. *)
Theorem space_separated_entry_dropped (ip d : str) (c : char) (t : str) :
  d ∈ STEAM_DOMAINS →
  ip = c :: t → is_space c = false → c ≠ 35 →
  dropped (ip ++ [SPACE] ++ d) = true.
Proof.
  intros Hd -> Hc Hhash.
  pose proof managed_domains_no_space as Hplain.
  rewrite Forall_forall in Hplain. destruct (Hplain d Hd) as [Hne Hns].
  remember ((c :: t) ++ [SPACE] ++ d) as line eqn:Hline.
  assert (strip line = line) as Hs.
  { subst line. unfold strip. cbn [app lstrip]. rewrite Hc.
    pose proof (rstrip_app_no_space (c :: t ++ [SPACE]) d Hne Hns) as H.
    cbn [app] in H. rewrite <- app_assoc in H. exact H. }
  enough (dropped line = true) as Hgoal by (subst line; exact Hgoal).
  apply (proj2 (dropped_iff line)). rewrite Hs. split_and!.
  - by subst line.
  - destruct (startswith line (lit "#")) eqn:E; [|done].
    apply startswith_app in E as [u Hu]. subst line.
    change (lit "#" ++ u) with (35 :: u) in Hu. cbn [app] in Hu.
    injection Hu as Hu _. done.
  - exists d. split; [done|]. exists ([SPACE] ++ c :: t), [SPACE].
    subst line. by rewrite <- !app_assoc.
Qed.

Lemma space_separated_entry_dropped_witness :
  dropped (lit "1.2.3.4" ++ [SPACE] ++ lit "steamcommunity.com") = true.
Proof.
  apply (space_separated_entry_dropped (lit "1.2.3.4")
           (lit "steamcommunity.com") 49 (lit ".2.3.4")).
  - apply (bool_decide_unpack _). by vm_compute.
  - reflexivity.
  - reflexivity.
  - done.
Defined.

Lemma generated_entry_kept_witness :
  dropped (lit "1.2.3.4" ++ [TAB] ++ lit "api.steampowered.com") = false.
Proof.
  apply (generated_entry_kept (lit "1.2.3.4") (lit "api.steampowered.com")).
  - apply (bool_decide_unpack _). by vm_compute.
  - exists 49, (lit ".2.3.4"). split; reflexivity.
  - apply (bool_decide_unpack _). by vm_compute.
  - intros d' Hd'.
    assert (Forall (fun d' => startswith (lit "1.2.3.4") d' = false)
              STEAM_DOMAINS) as Hall
      by (apply (bool_decide_unpack _); by vm_compute).
    rewrite Forall_forall in Hall. by apply Hall.
Defined.

Lemma kept_lines_kept_again (lines : list str) :
  filter (fun l => negb (dropped l)) (filter (fun l => negb (dropped l)) lines)
  = filter (fun l => negb (dropped l)) lines
  ∧ filter (fun l => dropped l) (filter (fun l => negb (dropped l)) lines)
    = [].
Proof.
  induction lines as [|line lines [IH1 IH2]]; [done|].
  rewrite filter_cons. destruct (dropped line) eqn:E; simpl; [done|].
  rewrite !filter_cons, E. simpl. by rewrite IH1, IH2.
Qed.

(** X7.  On the lines a run wrote, the filter of the next run can remove
    entry lines only: the lines kept before, the header and the footer all
    stay, whatever the time stamp, and the count is the count of the
    entry lines removed.  Every run so adds one more header and footer. *)
Theorem markers_survive_filter (lines entries : list str) (ts : str) :
  filter_lines ((filter_lines lines).1 ++ [header ts] ++ entries ++ [footer])
  = ((filter_lines lines).1 ++ [header ts]
       ++ (filter_lines entries).1 ++ [footer],
     (filter_lines entries).2).
Proof.
  assert (dropped (header ts) = false) as Hh by apply comment_not_dropped.
  assert (dropped footer = false) as Hf by apply comment_not_dropped.
  destruct (kept_lines_kept_again lines) as [Hk1 Hk2].
  rewrite !filter_lines_spec. cbn [fst snd app].
  rewrite !filter_app, !filter_cons, !filter_app, !filter_cons, !filter_nil.
  rewrite Hk1, Hk2, Hh, Hf. simpl.
  by rewrite app_nil_r.
Qed.

End FilterMore.

(** ** More on the updater as a whole *)

Section MainMore.

Import Update.

Context (e : env).

Lemma resolve_all_tidy (servers domains : list str) (w w' : world)
  (rs : list (list str)) :
  resolve_all e servers domains w = (Ret rs, w') →
  Forall (Forall tidy) rs ∧ length rs = length domains.
Proof.
  revert w w' rs. induction domains as [|d domains IH]; intros w w' rs.
  - intros [= <- _]. split; [constructor|done].
  - rewrite resolve_all_cons.
    destruct (resolve_domain e d servers w) as [[ips|x] w1] eqn:Hd; [|done].
    destruct (resolve_all e servers domains w1) as [[more|x] w2] eqn:Hr;
      [|done].
    intros [= <- _]. destruct (IH _ _ _ Hr) as [Hall Hlen].
    destruct (resolve_domain_form e _ _ _ _ _ Hd) as (xs & -> & Hxs).
    split; [|simpl; by f_equal].
    constructor; [by apply sorted_set_Forall|done].
Qed.

Lemma uint_digits_no_break (u : Decimal.uint) : no_break (uint_digits u).
Proof. induction u; cbn [uint_digits]; by constructor. Qed.

Lemma zfill_no_break (n : nat) (s : str) : no_break s → no_break (zfill n s).
Proof.
  intros H. unfold zfill. apply Forall_app_2; [|done].
  by apply Forall_replicate.
Qed.

Lemma strftime_no_break (t : datetime) : no_break (Prim.strftime t).
Proof.
  unfold Prim.strftime.
  repeat (apply Forall_app_2;
          [first [apply zfill_no_break, uint_digits_no_break
                 |by repeat constructor]|]).
  apply zfill_no_break, uint_digits_no_break.
Qed.

Lemma managed_domains_no_break : Forall no_break STEAM_DOMAINS.
Proof. apply (bool_decide_unpack _). by vm_compute. Qed.

(** The entry lines built from tidy addresses. *)
Lemma entries_shape (domains : list str) (rs : list (list str)) :
  Forall (fun d => d ∈ STEAM_DOMAINS) domains →
  Forall (Forall tidy) rs →
  Forall (fun line => ∃ ip d, line = ip ++ [TAB] ++ d
                             ∧ d ∈ STEAM_DOMAINS ∧ tidy ip)
    (concat (zip_with entries_of domains rs)).
Proof.
  intros Hd. revert rs. induction Hd as [|d domains Hd _ IH]; intros rs Hrs.
  - by destruct rs.
  - destruct Hrs as [|ips rs Hips Hrs]; [constructor|].
    cbn [zip_with concat]. apply Forall_app_2; [|by apply IH].
    unfold entries_of. apply Forall_forall. intros line Hline.
    apply list_elem_of_In, in_map_iff in Hline as (ip & <- & Hip).
    exists ip, d. split_and!; [done|done|].
    rewrite Forall_forall in Hips. by apply Hips, list_elem_of_In.
Qed.

(** A run on a hosts path that does not exist. *)
Lemma main_missing (a : args) (w : world) :
  fs w !! hosts_path a = None →
  main e a w =
    (Ret 1%Z,
     after w [EvErr (lit "[ERROR] hosts not found: " ++ hosts_path a)]).
Proof.
  intros Hdata.
  unfold main, mbind, M_bind, bind, Prim.exists_, Prim.print_err.
  by rewrite Hdata, bool_decide_false by (by intros [? ?]).
Qed.

(** X8.  The updater returns 1 when the hosts path does not exist and 0
    when it does (operations on an existing file are taken to succeed, as
    everywhere in this file-system model); when the path does not exist it
    reports that on the error stream and does nothing else: no backup, no
    tool, no write. *)
Theorem updater_exit_code (a : args) (w : world) :
  ∃ code w',
    main e a w = (Ret code, w') ∧
    (code = 1%Z ↔ fs w !! hosts_path a = None) ∧
    (code = 0%Z ↔ is_Some (fs w !! hosts_path a)) ∧
    (fs w !! hosts_path a = None →
     w' = after w [EvErr (lit "[ERROR] hosts not found: " ++ hosts_path a)]).
Proof.
  destruct (fs w !! hosts_path a) as [data|] eqn:Hdata.
  - destruct (main_run e a w data Hdata)
      as (rs & w_r & entries & tr & _ & _ & _ & _ & Hmain).
    rewrite Hmain.
    destruct (dry_run a); eexists _, _; (split; [reflexivity|]);
      split_and!; try done; by eauto.
  - rewrite (main_missing a w Hdata).
    eexists _, _. split; [reflexivity|]. split_and!; done.
Qed.


End MainMore.

(** ** What a run writes and reports *)

Section Written.

Import Update.

Context (e : env).

Lemma outputs_app (t1 t2 : list event) :
  outputs (t1 ++ t2) = outputs t1 ++ outputs t2.
Proof. apply omap_app. Qed.

Lemma outputs_tool (tr : list event) :
  Forall (fun ev => is_tool ev = true) tr → outputs tr = [].
Proof.
  induction 1 as [|ev tr Hev _ IH]; [done|].
  destruct ev; try discriminate Hev; exact IH.
Qed.

(** The loop of [main] over the domains, with what it prints. *)
Lemma collect_entries_report (servers domains acc : list str)
  (w1 w2 : world) :
  tool_history (trace w1) = tool_history (trace w2) →
  ∃ rs tr w2',
    resolve_all e servers domains w2 = (Ret rs, w2') ∧
    collect_entries e servers domains acc w1 =
      (Ret (acc ++ concat (zip_with entries_of domains rs)), after w1 tr) ∧
    outputs tr = map (warning servers) (failed domains rs).
Proof.
  revert acc w1 w2.
  induction domains as [|domain rest IH]; intros acc w1 w2 H.
  - exists [], [], w2. simpl. by rewrite app_nil_r, after_nil.
  - destruct (tool_step_resolve_domain e domain servers w1 w2 H)
      as (ips & tr & H1 & H2 & Htr).
    rewrite collect_entries_cons, resolve_all_cons, H1, H2.
    assert (tool_history (trace (after w1 tr))
            = tool_history (trace (after w2 tr))) as H'.
    { rewrite !tool_history_after by done. by f_equal. }
    destruct ips as [|ip ips]; cbn [truthy negb].
    + rewrite after_after.
      set (warn := EvOut (lit "[WARN] failed to resolve " ++ domain
                          ++ lit " via DNS " ++ join (lit ", ") servers)).
      destruct (IH acc (after w1 (tr ++ [warn])) (after w2 tr))
        as (rs & tr' & w2' & -> & -> & Hout).
      { rewrite <- after_after, tool_history_quiet; done. }
      rewrite after_after. exists ([] :: rs), ((tr ++ [warn]) ++ tr'), w2'.
      split_and!; try done.
      rewrite !outputs_app, (outputs_tool tr Htr), Hout. reflexivity.
    + destruct (IH (acc ++ entries_of domain (ip :: ips)) _ _ H')
        as (rs & tr' & w2' & -> & -> & Hout).
      rewrite after_after. exists ((ip :: ips) :: rs), (tr ++ tr'), w2'.
      split_and!; try done.
      * cbn [zip_with concat]. by rewrite app_assoc.
      * rewrite outputs_app, (outputs_tool tr Htr), Hout. reflexivity.
Qed.

(** X10.  The loop of the updater over the managed domains builds one
    entry line, address tab domain, for every address of every domain in
    the order of the domains, and prints exactly one warning for each
    domain whose resolution came back empty, and nothing else. *)
Theorem warnings_match_failures (servers domains : list str) (w : world) :
  ∃ rs tr w_r,
    resolve_all e servers domains w = (Ret rs, w_r) ∧
    length rs = length domains ∧
    collect_entries e servers domains [] w =
      (Ret (concat (zip_with entries_of domains rs)), after w tr) ∧
    outputs tr = map (warning servers) (failed domains rs).
Proof.
  destruct (collect_entries_report servers domains [] w w eq_refl)
    as (rs & tr & w_r & Hr & Hc & Hout).
  exists rs, tr, w_r. split_and!; try done.
  by destruct (resolve_all_tidy e _ _ _ _ _ Hr).
Qed.

(** X11.  What a run that is not a dry run writes reads back, line for
    line, as the kept lines, the header, the entry lines and the footer:
    no address can break a line or add one.  Each entry line is a tidy
    address, a tab and a managed domain. *)
Theorem written_text_reads_back (a : args) (w : world) (data : list byte) :
  dry_run a = false →
  fs w !! hosts_path a = Some data →
  ∃ entries w',
    main e a w = (Ret 0%Z, w') ∧
    fs w' !! hosts_path a = Some (encode e (new_text e a data entries)) ∧
    splitlines (new_text e a data entries) =
      (filter_hosts (decode e data)).1
      ++ [header (Prim.strftime (now e))] ++ entries ++ [footer] ∧
    Forall (fun line => ∃ ip d, line = ip ++ [TAB] ++ d
                               ∧ d ∈ STEAM_DOMAINS ∧ tidy ip) entries.
Proof.
  intros Hdry Hdata.
  destruct (main_run e a w data Hdata)
    as (rs & w_r & entries & tr & Hr & -> & _ & _ & Hmain).
  rewrite Hdry in Hmain.
  destruct (resolve_all_tidy e _ _ _ _ _ Hr) as [Htidy _].
  assert (Forall (fun line => ∃ ip d, line = ip ++ [TAB] ++ d
                                     ∧ d ∈ STEAM_DOMAINS ∧ tidy ip)
            (concat (zip_with entries_of STEAM_DOMAINS rs))) as Hshape.
  { apply entries_shape; [|done]. by apply Forall_forall. }
  eexists _, _. split; [exact Hmain|]. split_and!; [| |done].
  - cbn [fs]. by rewrite lookup_insert_eq.
  - unfold new_text. apply splitlines_join.
    + by destruct (filter_hosts (decode e data)).1.
    + apply Forall_app_2; [|apply Forall_cons_2; [|apply Forall_app_2]].
      * unfold filter_hosts. fold (filter_lines (splitlines (decode e data))).
        rewrite filter_lines_spec. cbn [fst]. apply Forall_forall.
        intros line [_ Hin]%list_elem_of_filter.
        by eapply splitlines_no_break.
      * unfold header. apply no_break_app; [by apply (bool_decide_unpack _)|].
        apply no_break_app; [apply strftime_no_break|].
        by apply (bool_decide_unpack _).
      * eapply Forall_impl; [exact Hshape|].
        intros line (ip & d & -> & Hd & _ & _ & Hip).
        apply no_break_app; [done|]. apply no_break_app.
        -- by repeat constructor.
        -- pose proof managed_domains_no_break as Hall.
           rewrite Forall_forall in Hall. by apply Hall.
      * constructor; [|constructor]. by apply (bool_decide_unpack _).
Qed.

End Written.

Lemma written_text_reads_back_witness :
  ∃ entries w',
    Update.main Demo.dig_env (Demo.args0 false) Demo.world0 = (Ret 0%Z, w') ∧
    fs w' !! Update.hosts_path (Demo.args0 false)
      = Some (encode Demo.dig_env
                (new_text Demo.dig_env (Demo.args0 false)
                   (Demo.bytes_of "127.0.0.1 localhost") entries)) ∧
    splitlines (new_text Demo.dig_env (Demo.args0 false)
                  (Demo.bytes_of "127.0.0.1 localhost") entries) =
      (Update.filter_hosts
         (decode Demo.dig_env (Demo.bytes_of "127.0.0.1 localhost"))).1
      ++ [Update.header (Prim.strftime (now Demo.dig_env))] ++ entries
      ++ [Update.footer] ∧
    Forall (fun line => ∃ ip d, line = ip ++ [TAB] ++ d
                               ∧ d ∈ Update.STEAM_DOMAINS ∧ tidy ip) entries.
Proof.
  apply (written_text_reads_back Demo.dig_env (Demo.args0 false) Demo.world0
           (Demo.bytes_of "127.0.0.1 localhost")).
  - reflexivity.
  - by vm_compute.
Defined.

(** ** More on the parser of the verifier *)

Section Parser.

Import Verify.

Lemma assign_all_lookup (ip : str) (domains : list str)
  (mapping : gmap str str) (d : str) :
  assign_all ip domains mapping !! d =
    if bool_decide (d ∈ domains) then Some ip else mapping !! d.
Proof.
  unfold assign_all. revert mapping.
  induction domains as [|x domains IH]; intros mapping; cbn [foldl].
  - rewrite bool_decide_false; [done|]. by intros ?%elem_of_nil.
  - rewrite IH. destruct (decide (d ∈ domains)) as [Hin|Hin].
    + rewrite !bool_decide_true; [done| |done]. by right.
    + rewrite (bool_decide_false _ Hin).
      destruct (decide (x = d)) as [->|Hne].
      * rewrite lookup_insert_eq, bool_decide_true; [done|left].
      * rewrite lookup_insert_ne by done.
        rewrite bool_decide_false; [done|].
        intros [?|?]%elem_of_cons; congruence.
Qed.

(** One step of the loop of [parse_hosts]. *)
Lemma parse_loop_cons (line : str) (rest : list str)
  (mapping : gmap str str) :
  parse_loop (line :: rest) mapping =
    match entry_of line with
    | Some (ip, domains) => parse_loop rest (assign_all ip domains mapping)
    | None => parse_loop rest mapping
    end.
Proof.
  cbn [parse_loop]. unfold entry_of. cbv zeta.
  destruct (negb (truthy (strip line)) || startswith (strip line) (lit "#"));
    [done|].
  by destruct (split (strip line)) as [|ip [|d ds]].
Qed.

Lemma parse_loop_app (l1 l2 : list str) (mapping : gmap str str) :
  parse_loop (l1 ++ l2) mapping = parse_loop l2 (parse_loop l1 mapping).
Proof.
  revert mapping. induction l1 as [|line l1 IH]; intros mapping; [done|].
  cbn [app]. rewrite !parse_loop_cons.
  by destruct (entry_of line) as [[ip ds]|].
Qed.

Lemma parse_loop_skip (lines : list str) (mapping : gmap str str) (d : str) :
  Forall (fun line => ¬ names d line) lines →
  parse_loop lines mapping !! d = mapping !! d.
Proof.
  intros H. revert mapping.
  induction H as [|line lines Hline _ IH]; intros mapping; [done|].
  rewrite parse_loop_cons.
  destruct (entry_of line) as [[ip ds]|] eqn:E; [|apply IH].
  rewrite IH, assign_all_lookup, bool_decide_false; [done|].
  intros Hin. apply Hline. by exists ip, ds.
Qed.

Lemma parse_loop_last (pre post : list str) (line ip d : str)
  (ds : list str) (mapping : gmap str str) :
  entry_of line = Some (ip, ds) → d ∈ ds →
  Forall (fun l => ¬ names d l) post →
  parse_loop (pre ++ line :: post) mapping !! d = Some ip.
Proof.
  intros He Hd Hpost.
  rewrite parse_loop_app, parse_loop_cons, He, parse_loop_skip by done.
  by rewrite assign_all_lookup, bool_decide_true.
Qed.

Lemma parse_loop_found (lines : list str) (mapping : gmap str str)
  (d ip : str) :
  parse_loop lines mapping !! d = Some ip →
  (∃ pre line post ds,
     lines = pre ++ line :: post ∧ entry_of line = Some (ip, ds) ∧ d ∈ ds
     ∧ Forall (fun l => ¬ names d l) post)
  ∨ (mapping !! d = Some ip ∧ Forall (fun l => ¬ names d l) lines).
Proof.
  induction lines as [|line lines IH] using rev_ind.
  - intros H. right. by split.
  - rewrite parse_loop_app, parse_loop_cons. cbn [parse_loop].
    destruct (entry_of line) as [[ip' ds']|] eqn:E.
    + rewrite assign_all_lookup.
      destruct (decide (d ∈ ds')) as [Hin|Hin].
      * rewrite bool_decide_true by done. intros [= <-]. left.
        exists lines, line, [], ds'. by split_and!.
      * rewrite bool_decide_false by done.
        intros [(pre & l & post & ds & -> & He & Hd & Hpost)|[Hm Hall]]%IH.
        -- left. exists pre, l, (post ++ [line]), ds.
           rewrite <- app_assoc. split_and!; try done.
           apply Forall_app_2; [done|]. constructor; [|constructor].
           intros (? & ? & ? & ?). congruence.
        -- right. split; [done|]. apply Forall_app_2; [done|].
           constructor; [|constructor]. intros (? & ? & ? & ?). congruence.
    + intros [(pre & l & post & ds & -> & He & Hd & Hpost)|[Hm Hall]]%IH.
      * left. exists pre, l, (post ++ [line]), ds.
        rewrite <- app_assoc. split_and!; try done.
        apply Forall_app_2; [done|]. constructor; [|constructor].
        intros (? & ? & ? & ?). congruence.
      * right. split; [done|]. apply Forall_app_2; [done|].
        constructor; [|constructor]. intros (? & ? & ? & ?). congruence.
Qed.

(** X12.  The parser of the verifier maps a domain to an address exactly
    when some line of the file, neither blank nor a comment, names the
    domain after that address as its first field, and no later line names
    the domain again: the last entry wins. *)
Theorem parse_hosts_last_entry_wins (content d ip : str) :
  parse_content content !! d = Some ip ↔
  ∃ pre line post ds,
    splitlines content = pre ++ line :: post
    ∧ entry_of line = Some (ip, ds) ∧ d ∈ ds
    ∧ Forall (fun l => ¬ names d l) post.
Proof.
  unfold parse_content. split.
  - intros [H|[H _]]%parse_loop_found; [done|].
    by rewrite lookup_empty in H.
  - intros (pre & line & post & ds & -> & He & Hd & Hpost).
    by eapply parse_loop_last.
Qed.

Lemma parse_loop_keeps (lines : list str) (mapping : gmap str str) (d : str) :
  is_Some (mapping !! d) → is_Some (parse_loop lines mapping !! d).
Proof.
  revert mapping. induction lines as [|l lines IH]; intros mapping H; [done|].
  rewrite parse_loop_cons.
  destruct (entry_of l) as [[ip ds]|]; [|by apply IH].
  apply IH. rewrite assign_all_lookup. by destruct (bool_decide (d ∈ ds)).
Qed.

Lemma parse_loop_named (lines : list str) (mapping : gmap str str)
  (d line : str) :
  line ∈ lines → names d line → is_Some (parse_loop lines mapping !! d).
Proof.
  intros Hin (ip & ds & He & Hd). revert mapping.
  induction lines as [|l lines IH]; intros mapping.
  - by apply elem_of_nil in Hin.
  - rewrite parse_loop_cons. apply elem_of_cons in Hin as [<-|Hin].
    + rewrite He. apply parse_loop_keeps.
      by rewrite assign_all_lookup, bool_decide_true.
    + destruct (entry_of l) as [[ip2 ds2]|]; by apply IH.
Qed.

(** X13.  A domain is missing from the mapping exactly when no line of
    the file names it: comments, blank lines and lines of a single field
    give nothing. *)
Theorem parse_hosts_missing (content d : str) :
  parse_content content !! d = None ↔
  ∀ line, line ∈ splitlines content → ¬ names d line.
Proof.
  unfold parse_content. split.
  - intros Hnone line Hin Hnames.
    destruct (parse_loop_named (splitlines content) ∅ d line Hin Hnames)
      as [v Hv].
    congruence.
  - intros H. rewrite parse_loop_skip; [apply lookup_empty|].
    by apply Forall_forall.
Qed.

End Parser.

(** ** More on the verifier as a whole *)

Section VerifierMore.

Import Verify.

Context (e : env).

Lemma ok_line (x : str) : startswith (lit "[OK] " ++ x) (lit "[OK] ") = true.
Proof. apply startswith_app. by exists x. Qed.

Lemma warn_line (x : str) :
  startswith (lit "[WARN] " ++ x) (lit "[OK] ") = false.
Proof.
  destruct (startswith _ _) eqn:E; [|done].
  apply startswith_app in E as [t Ht]. vm_compute in Ht. discriminate Ht.
Qed.

(** The loop of the verifier prints one line for each domain: a line
    that starts with the mark of success exactly when the domain is
    [good]. *)
Lemma check_loop_report (hosts_map : gmap str str) (domains : list str)
  (ok : bool) (w : world) :
  ∃ lines,
    check_loop e hosts_map domains ok w
    = (Ret (ok && forallb (good e hosts_map) domains),
       after w (map EvOut lines)) ∧
    Forall2 (fun d line => startswith line (lit "[OK] ") = good e hosts_map d)
      domains lines.
Proof.
  revert ok w. induction domains as [|d domains IH]; intros ok w.
  - exists []. cbn. rewrite andb_true_r, after_nil. by split.
  - cbn [check_loop forallb]. cbv zeta.
    assert (good e hosts_map d =
            match hosts_map !! d with
            | Some ip => truthy ip
                         && bool_decide (ip ∈ system_resolve e d)
            | None => false
            end) as Hgood by done.
    rewrite Hgood. clear Hgood.
    unfold mbind, M_bind, bind, Prim.print.
    destruct (hosts_map !! d) as [[|c ip]|] eqn:Hm; cbn [truthy negb andb].
    + rewrite log_after.
      match goal with
      | |- context [check_loop _ _ _ _ (after w [EvOut ?l])] =>
          destruct (IH false (after w [EvOut l])) as (lines & -> & Hl);
          exists (l :: lines)
      end.
      rewrite after_after, andb_false_r. split; [done|].
      constructor; [|done]. unfold good. rewrite Hm. cbn [truthy andb].
      apply (warn_line (lit "hosts missing: " ++ d)).
    + destruct (bool_decide (c :: ip ∈ system_resolve e d)) eqn:Hb;
        rewrite log_after.
      * match goal with
        | |- context [check_loop _ _ _ _ (after w [EvOut ?l])] =>
            destruct (IH ok (after w [EvOut l])) as (lines & -> & Hl);
            exists (l :: lines)
        end.
        rewrite after_after, andb_true_l. split; [done|].
        constructor; [|done]. unfold good. rewrite Hm, Hb.
        apply ok_line.
      * match goal with
        | |- context [check_loop _ _ _ _ (after w [EvOut ?l])] =>
            destruct (IH false (after w [EvOut l])) as (lines & -> & Hl);
            exists (l :: lines)
        end.
        rewrite after_after, andb_false_r. split; [done|].
        constructor; [|done]. unfold good. rewrite Hm, Hb.
        apply warn_line.
    + rewrite log_after.
      match goal with
      | |- context [check_loop _ _ _ _ (after w [EvOut ?l])] =>
          destruct (IH false (after w [EvOut l])) as (lines & -> & Hl);
          exists (l :: lines)
      end.
      rewrite after_after, andb_false_r. split; [done|].
      constructor; [|done]. unfold good. rewrite Hm.
      apply (warn_line (lit "hosts missing: " ++ d)).
Qed.

(** X14.  The verifier changes no file and, reading an existing file
    being taken to succeed, raises nothing.  When the
    hosts path does not exist it returns 1 after one line on the error
    stream; otherwise it reads the file once and prints exactly one line
    per managed domain, in their order, a line that starts with the mark
    of success exactly for the domains whose mapped address is among the
    resolved ones. *)
Theorem verifier_reports (a : args) (w : world) :
  ∃ code tr,
    main e a w = (Ret code, after w tr) ∧
    (fs w !! hosts_path a = None →
     code = 1%Z ∧
     tr = [EvErr (lit "[ERROR] hosts not found: " ++ hosts_path a)]) ∧
    (∀ data, fs w !! hosts_path a = Some data →
       ∃ lines,
         tr = EvRead (hosts_path a) :: map EvOut lines ∧
         Forall2
           (fun d line =>
              startswith line (lit "[OK] ")
              = good e (parse_content (decode e data)) d)
           STEAM_DOMAINS lines).
Proof.
  unfold main, parse_hosts, Prim.exists_, Prim.read_text, Prim.print_err.
  unfold mbind, M_bind, bind.
  destruct (fs w !! hosts_path a) as [data|] eqn:Hdata.
  - rewrite bool_decide_true by done. cbn [negb]. cbv beta.
    rewrite Hdata. unfold ret.
    destruct (check_loop_report (parse_content (decode e data)) STEAM_DOMAINS
                true (log (EvRead (hosts_path a)) w)) as (lines & -> & Hl).
    rewrite log_after, after_after.
    eexists _, _. split; [reflexivity|]. split; [done|].
    intros data' [= <-]. by exists lines.
  - rewrite bool_decide_false by (by intros [? ?]). cbn [negb].
    rewrite log_after. eexists _, _. split; [reflexivity|]. by split.
Qed.

(** X15.  The addresses the verifier resolves for a domain are in
    ascending order, without repetition and free of colons; they are the
    colon-free hosts of the entries the name service returned, and there
    are none when the name service raises. *)
Theorem system_resolve_shape (domain : str) :
  Sorted str_le (system_resolve e domain) ∧
  NoDup (system_resolve e domain) ∧
  Forall no_colon (system_resolve e domain) ∧
  (∀ infos, getaddrinfo e domain = Ret infos →
     ∀ ip, ip ∈ system_resolve e domain ↔
           (∃ info, info ∈ infos ∧ ai_host info = ip) ∧ no_colon ip) ∧
  (∀ x, getaddrinfo e domain = Raise x → system_resolve e domain = []).
Proof.
  unfold system_resolve.
  destruct (getaddrinfo e domain) as [infos|x].
  - split_and!; [apply sorted_set_sorted|apply sorted_set_nodup| | |done].
    + apply sorted_set_Forall, Forall_forall.
      intros ip [Hip _]%list_elem_of_filter.
      by apply Is_true_true, negb_true_iff in Hip.
    + intros infos' [= <-] ip. unfold no_colon.
      rewrite elem_of_sorted_set, list_elem_of_filter, Is_true_true,
        negb_true_iff.
      split.
      * intros [Hc Hin]. split; [|done].
        apply list_elem_of_In, in_map_iff in Hin as (info & Hh & Hin).
        exists info. by rewrite list_elem_of_In.
      * intros [(info & Hin & Hh) Hc]. split; [done|].
        apply list_elem_of_In, in_map_iff. exists info.
        by rewrite <- list_elem_of_In.
  - split_and!; [constructor|constructor|constructor|done|done].
Qed.

End VerifierMore.

(** ** The list of servers *)

Section Servers.

Import Update.

Lemma elem_of_rev (c : char) (s : str) : c ∈ rev s → c ∈ s.
Proof.
  intros H%list_elem_of_In. by apply list_elem_of_In, in_rev.
Qed.

Lemma split_on_from_no_sep (sep : char) (cur s : str) :
  sep ∉ cur → Forall (fun piece => sep ∉ piece) (split_on_from sep cur s).
Proof.
  revert cur. induction s as [|c s IH]; intros cur Hcur;
    cbn [split_on_from].
  - constructor; [|constructor]. by intros ?%elem_of_rev.
  - destruct (N.eqb_spec c sep) as [->|Hne].
    + constructor; [by intros ?%elem_of_rev|].
      apply IH. by intros ?%elem_of_nil.
    + apply IH. intros [Heq|Hin]%elem_of_cons; [by subst|done].
Qed.

(** X16.  Every server the updater takes from the [--dns] option is not
    empty, carries no white space at either end and holds no comma;
    pieces that are empty or blank are left out. *)
Theorem parse_dns_clean (raw : str) :
  Forall (fun server => server ≠ [] ∧ strip server = server
                        ∧ COMMA ∉ server)
    (parse_dns raw).
Proof.
  unfold parse_dns. apply Forall_forall. intros server Hs.
  apply list_elem_of_In, in_map_iff in Hs as (piece & <- & Hin).
  apply list_elem_of_In, list_elem_of_filter in Hin as [Ht Hin].
  split_and!.
  - apply Is_true_true in Ht. by destruct (strip piece).
  - apply strip_strip.
  - intros Hc%strip_subseteq.
    pose proof (split_on_from_no_sep COMMA [] raw) as Hall.
    rewrite Forall_forall in Hall.
    eapply Hall; [by intros ?%elem_of_nil|exact Hin|done].
Qed.

End Servers.

(** ** The written file, as the verifier parses it *)

Section UpdateThenParse.

Import Update.

Context (e : env).

Lemma split_from_word (cur s rest : str) :
  no_space s → split_from cur (s ++ rest) = split_from (rev s ++ cur) rest.
Proof.
  intros Hs. revert cur. induction Hs as [|c s Hc _ IH]; intros cur; [done|].
  cbn [app split_from rev]. rewrite Hc, IH. by rewrite <- app_assoc.
Qed.

(** The fields of a generated entry line are the address and the
    domain. *)
Lemma split_generated (ip d : str) :
  ip ≠ [] → no_space ip → d ≠ [] → no_space d →
  split (ip ++ [TAB] ++ d) = [ip; d].
Proof.
  intros Hip Hips Hd Hds. unfold split.
  rewrite split_from_word by done. rewrite app_nil_r.
  cbn [app split_from]. change (is_space TAB) with true. cbv iota.
  destruct (rev ip) as [|c r] eqn:Er.
  { apply (f_equal (@rev _)) in Er. rewrite rev_involutive in Er. done. }
  rewrite <- Er, rev_involutive. f_equal.
  rewrite <- (app_nil_r d) at 1. rewrite split_from_word by done.
  rewrite app_nil_r. cbn [split_from].
  destruct (rev d) as [|c' r'] eqn:Ed.
  { apply (f_equal (@rev _)) in Ed. rewrite rev_involutive in Ed. done. }
  by rewrite <- Ed, rev_involutive.
Qed.

Lemma entry_of_generated (ip d : str) :
  plain ip → d ≠ [] → no_space d →
  entry_of (ip ++ [TAB] ++ d) = Some (ip, [d]).
Proof.
  intros (Hne & Hs & Hhash) Hd Hds.
  remember (ip ++ [TAB] ++ d) as line eqn:Hline.
  assert (strip line = line) as Hstrip.
  { subst line. unfold strip. destruct ip as [|c t]; [done|].
    cbn [app lstrip]. apply Forall_cons in Hs as [Hc Ht]. rewrite Hc.
    pose proof (rstrip_app_no_space (c :: t ++ [TAB]) d Hd Hds) as H.
    cbn [app] in H. rewrite <- app_assoc in H. exact H. }
  unfold entry_of. cbv zeta. rewrite Hstrip.
  assert (Verify.truthy line = true) as ->.
  { subst line. by destruct ip. }
  assert (startswith line (lit "#") = false) as ->.
  { destruct (startswith line (lit "#")) eqn:E; [|done].
    apply startswith_app in E as [u Hu]. subst line.
    destruct ip as [|c t]; [done|].
    change (lit "#" ++ u) with (35 :: u) in Hu. cbn [app] in Hu.
    injection Hu as -> _.
    assert (startswith (35 :: t) (lit "#") = true) as Hc; [|congruence].
    apply startswith_app. by exists t. }
  cbn [negb orb]. subst line. by rewrite split_generated.
Qed.

Lemma entry_of_comment (t : str) : entry_of (35 :: t) = None.
Proof.
  assert (∃ u, strip (35 :: t) = 35 :: u) as [u Hu].
  { unfold strip. cbn [lstrip]. change (is_space 35) with false. cbv iota.
    by apply rstrip_keeps_head. }
  unfold entry_of. cbv zeta. rewrite Hu.
  assert (startswith (35 :: u) (lit "#") = true) as ->.
  { apply startswith_app. by exists u. }
  by rewrite orb_true_r.
Qed.

(** The verifier's parser on the entry lines of one domain. *)
Lemma parse_entries_of (d : str) (ips rest : list str)
  (m : gmap str str) :
  d ≠ [] → no_space d → Forall plain ips →
  Verify.parse_loop (entries_of d ips ++ rest) m =
    Verify.parse_loop rest (foldl (fun m ip => <[d := ip]> m) m ips).
Proof.
  intros Hd Hds Hips. revert m.
  induction Hips as [|ip ips Hip _ IH]; intros m; [done|].
  change (entries_of d (ip :: ips) ++ rest)
    with ((ip ++ [TAB] ++ d) :: (entries_of d ips ++ rest)).
  rewrite parse_loop_cons, entry_of_generated by done. apply IH.
Qed.

Lemma foldl_insert_lookup (d d' : str) (ips : list str) (m : gmap str str) :
  foldl (fun m ip => <[d := ip]> m) m ips !! d' =
    if decide (d' = d) then
      match last ips with Some ip => Some ip | None => m !! d end
    else m !! d'.
Proof.
  revert m. induction ips as [|ip ips IH]; intros m; cbn [foldl].
  - by destruct (decide (d' = d)) as [->|].
  - rewrite IH. destruct (decide (d' = d)) as [->|Hne].
    + rewrite last_cons.
      destruct (last ips); [done|by rewrite lookup_insert_eq].
    + by rewrite lookup_insert_ne.
Qed.

(** The verifier's parser on the whole managed block. *)
Lemma parse_block (domains : list str) (rs : list (list str))
  (rest : list str) (m : gmap str str) :
  NoDup domains →
  Forall (fun d => d ≠ [] ∧ no_space d) domains →
  Forall (Forall plain) rs →
  ∃ m',
    Verify.parse_loop (concat (zip_with entries_of domains rs) ++ rest) m
    = Verify.parse_loop rest m' ∧
    (∀ d, d ∉ domains → m' !! d = m !! d) ∧
    (∀ i d ips, domains !! i = Some d → rs !! i = Some ips →
       m' !! d = match last ips with Some ip => Some ip | None => m !! d end).
Proof.
  intros Hnd Hdom. revert rs m.
  induction Hdom as [|d0 domains [Hd0 Hds0] _ IH]; intros rs m Hrs.
  - exists m. split_and!; [done|done|]. by intros [|?] ? ? ?.
  - apply NoDup_cons in Hnd as [Hnotin Hnd].
    destruct Hrs as [|ips0 rs Hips0 Hrs].
    + exists m. split_and!; [done|done|]. by intros [|?] ? ? ? ?.
    + cbn [zip_with concat]. rewrite <- app_assoc.
      rewrite parse_entries_of by done.
      destruct (IH Hnd rs (foldl (fun m ip => <[d0 := ip]> m) m ips0) Hrs)
        as (m' & Hm' & Hout & Hin).
      exists m'. split_and!; [done| |].
      * intros d Hd. rewrite Hout by (intros ?; apply Hd; by right).
        rewrite foldl_insert_lookup, decide_False; [done|].
        intros ->. apply Hd. left.
      * intros [|i] d ips; cbn.
        -- intros [= <-] [= <-]. rewrite Hout by done.
           by rewrite foldl_insert_lookup, decide_True.
        -- intros Hd Hi. rewrite (Hin i d ips Hd Hi).
           destruct (last ips); [done|].
           rewrite foldl_insert_lookup, decide_False; [done|].
           intros ->. apply Hnotin. by eapply list_elem_of_lookup_2.
Qed.

Lemma managed_domains_nodup : NoDup STEAM_DOMAINS.
Proof. apply (bool_decide_unpack _). by vm_compute. Qed.

Lemma plain_no_break (ip : str) : plain ip → no_break ip.
Proof. intros (_ & Hs & _). by apply no_space_no_break. Qed.

Lemma entries_plain_no_break (domains : list str) (rs : list (list str)) :
  Forall no_break domains →
  Forall (Forall plain) rs →
  Forall no_break (concat (zip_with entries_of domains rs)).
Proof.
  intros Hd. revert rs. induction Hd as [|d domains Hd _ IH]; intros rs Hrs.
  - by destruct rs.
  - destruct Hrs as [|ips rs Hips Hrs]; [constructor|].
    cbn [zip_with concat]. apply Forall_app_2; [|by apply IH].
    unfold entries_of. apply Forall_forall. intros line Hline.
    apply list_elem_of_In, in_map_iff in Hline as (ip & <- & Hip).
    rewrite Forall_forall in Hips.
    apply no_break_app; [by apply plain_no_break, Hips, list_elem_of_In|].
    apply no_break_app; [by repeat constructor|done].
Qed.

(** The lines of the text a run writes, for entries without line
    boundaries. *)
Lemma new_text_lines (a : args) (data : list byte) (entries : list str) :
  Forall no_break entries →
  splitlines (new_text e a data entries) =
    (filter_hosts (decode e data)).1
    ++ [header (Prim.strftime (now e))] ++ entries ++ [footer].
Proof.
  intros Hentries. unfold new_text. apply splitlines_join.
  - by destruct (filter_hosts (decode e data)).1.
  - apply Forall_app_2; [|apply Forall_cons_2; [|apply Forall_app_2]].
    + unfold filter_hosts. fold (filter_lines (splitlines (decode e data))).
      rewrite filter_lines_spec. cbn [fst]. apply Forall_forall.
      intros line [_ Hin]%list_elem_of_filter.
      by eapply splitlines_no_break.
    + unfold header. apply no_break_app; [by apply (bool_decide_unpack _)|].
      apply no_break_app; [apply strftime_no_break|].
      by apply (bool_decide_unpack _).
    + done.
    + constructor; [|constructor]. by apply (bool_decide_unpack _).
Qed.

(** X17.  After a run that is not a dry run, with addresses that are
    plain fields, the parser of the verifier maps every managed domain
    that resolved to the last, that is the greatest, of its addresses,
    whatever the file said before; a managed domain that did not resolve
    keeps the mapping the kept lines give it. *)
Theorem updated_hosts_parse (a : args) (w : world) (data : list byte)
  (rs : list (list str)) (w_r : world) :
  dry_run a = false →
  fs w !! hosts_path a = Some data →
  resolve_all e (parse_dns (dns_servers a)) STEAM_DOMAINS w = (Ret rs, w_r) →
  Forall (Forall plain) rs →
  ∃ text w',
    main e a w = (Ret 0%Z, w') ∧
    fs w' !! hosts_path a = Some (encode e text) ∧
    ∀ i d ips, STEAM_DOMAINS !! i = Some d → rs !! i = Some ips →
      Verify.parse_content text !! d =
        match last ips with
        | Some ip => Some ip
        | None =>
            Verify.parse_loop (filter_hosts (decode e data)).1 ∅ !! d
        end.
Proof.
  intros Hdry Hdata Hr Hplain.
  destruct (main_run e a w data Hdata)
    as (rs' & w_r' & entries & tr & Hr' & -> & _ & _ & Hmain).
  rewrite Hr in Hr'. injection Hr' as <- <-. rewrite Hdry in Hmain.
  eexists _, _. split; [exact Hmain|]. split.
  { cbn [fs]. by rewrite lookup_insert_eq. }
  intros i d ips Hd Hi. unfold Verify.parse_content.
  rewrite new_text_lines.
  2: { by apply entries_plain_no_break; [apply managed_domains_no_break|]. }
  rewrite parse_loop_app. cbn [app].
  rewrite parse_loop_cons.
  change (header (Prim.strftime (now e)))
    with (35 :: (lit " === Steam hosts (auto-generated) "
                 ++ Prim.strftime (now e) ++ lit " ===")).
  rewrite entry_of_comment.
  destruct (parse_block STEAM_DOMAINS rs [footer]
              (Verify.parse_loop (filter_hosts (decode e data)).1 ∅)
              managed_domains_nodup managed_domains_no_space Hplain)
    as (m' & -> & _ & Hin).
  rewrite parse_loop_cons.
  change footer with (35 :: lit " === End Steam hosts ===").
  rewrite entry_of_comment. cbn [Verify.parse_loop].
  by apply (Hin i).
Qed.

End UpdateThenParse.

Lemma updated_hosts_parse_witness :
  ∃ text w',
    Update.main Demo.dig_env (Demo.args0 false) Demo.world0 = (Ret 0%Z, w') ∧
    fs w' !! Update.hosts_path (Demo.args0 false)
      = Some (encode Demo.dig_env text) ∧
    ∀ i d ips, Update.STEAM_DOMAINS !! i = Some d →
      [[lit "1.2.3.4"]; [lit "1.2.3.4"]; [lit "1.2.3.4"]; [lit "1.2.3.4"];
       [lit "1.2.3.4"]; [lit "1.2.3.4"]; [lit "1.2.3.4"]] !! i = Some ips →
      Verify.parse_content text !! d =
        match last ips with
        | Some ip => Some ip
        | None =>
            Verify.parse_loop
              (Update.filter_hosts
                 (decode Demo.dig_env
                    (Demo.bytes_of "127.0.0.1 localhost"))).1 ∅ !! d
        end.
Proof.
  apply (updated_hosts_parse Demo.dig_env (Demo.args0 false) Demo.world0
           (Demo.bytes_of "127.0.0.1 localhost") _
           (resolve_all Demo.dig_env
              (Update.parse_dns (Update.dns_servers (Demo.args0 false)))
              Update.STEAM_DOMAINS Demo.world0).2).
  - reflexivity.
  - by vm_compute.
  - by vm_compute.
  - repeat constructor; try (by vm_compute);
      apply (bool_decide_unpack _); by vm_compute.
Defined.
